(** * Opentainer front-end bridge: stats derivation, API surface and
      streaming sessions

    A shallow embedding of [src/lib/api.ts] (the [AppApi] interface and the
    closures behind [startLogs], [startExec] and [pullImage]) and of
    [src/hooks/useBatchContainerStats.ts] (the CPU and memory derivation
    and the dictionary built from a batch result).

    - A JavaScript [number] is an IEEE-754 binary64 value; it is embedded as
      a primitive [float], so that [-], [/], [*] and [>] are the machine
      operations the hook evaluates.
    - A JavaScript object used as a dictionary ([statsMap]) is a [gmap]
      keyed by strings.
    - An optional field [f?: T] is an [option T]. *)

From Stdlib Require Import Floats ZArith.
From stdpp Require Import base option list strings gmap.

(** ** JavaScript numbers *)

Module Js.

Abbreviation number := float.

(** [ToBoolean] on a number: [+0], [-0] and [NaN] are falsy. *)
Definition truthy (x : number) : bool :=
  negb (PrimFloat.eqb x 0%float) && PrimFloat.eqb x x.

(** [x > y]; false as soon as one side is [NaN]. *)
Definition gt (x y : number) : bool := PrimFloat.ltb y x.

(** The [length] of an array, as a number. *)
Definition of_length (n : nat) : number :=
  PrimFloat.of_uint63 (Uint63.of_Z (Z.of_nat n)).

(** [ToBoolean] on a string: only the empty string is falsy. *)
Definition truthy_string (x : string) : bool :=
  match x with EmptyString => false | _ => true end.

End Js.

(** ** The stats payload: [interface StatsResponse] *)

(** [cpu_stats: { cpu_usage: { total_usage }, system_cpu_usage, online_cpus? }] *)
Module Cpu.
Record usage_t := { total_usage : Js.number }.
Record t := {
  cpu_usage : usage_t;
  system_cpu_usage : Js.number;
  online_cpus : option Js.number
}.
End Cpu.

(** [precpu_stats: { cpu_usage: { total_usage, percpu_usage? }, system_cpu_usage }] *)
Module PreCpu.
Record usage_t := {
  total_usage : Js.number;
  percpu_usage : option (list Js.number)
}.
Record t := {
  cpu_usage : usage_t;
  system_cpu_usage : Js.number
}.
End PreCpu.

(** [memory_stats: { usage, stats?: { cache? } }] *)
Module Memory.
Record detail := { cache : option Js.number }.
Record t := {
  usage : Js.number;
  stats : option detail
}.
End Memory.

Record StatsResponse := {
  cpu_stats : Cpu.t;
  precpu_stats : PreCpu.t;
  memory_stats : Memory.t
}.

(** ** The derivation inside [fetchAllStats] *)

(** [s.cpu_stats.cpu_usage.total_usage - s.precpu_stats.cpu_usage.total_usage] *)
Definition cpuDelta (s : StatsResponse) : Js.number :=
  (Cpu.total_usage (Cpu.cpu_usage (cpu_stats s))
   - PreCpu.total_usage (PreCpu.cpu_usage (precpu_stats s)))%float.

(** [s.cpu_stats.system_cpu_usage - s.precpu_stats.system_cpu_usage] *)
Definition systemDelta (s : StatsResponse) : Js.number :=
  (Cpu.system_cpu_usage (cpu_stats s)
   - PreCpu.system_cpu_usage (precpu_stats s))%float.

(** [s.precpu_stats.cpu_usage.percpu_usage?.length || 1]: the length of an
    array is a non-negative integer, truthy exactly when it is not zero. *)
Definition percpuCountOr1 (s : StatsResponse) : Js.number :=
  match PreCpu.percpu_usage (PreCpu.cpu_usage (precpu_stats s)) with
  | Some l => match length l with
              | O => 1%float
              | S _ as n => Js.of_length n
              end
  | None => 1%float
  end.

(** [s.cpu_stats.online_cpus || s.precpu_stats.cpu_usage.percpu_usage?.length || 1] *)
Definition numberCpus (s : StatsResponse) : Js.number :=
  match Cpu.online_cpus (cpu_stats s) with
  | Some n => if Js.truthy n then n else percpuCountOr1 s
  | None => percpuCountOr1 s
  end.

(** [let cpuPercent = 0.0;
     if (systemDelta > 0.0 && cpuDelta > 0.0)
         cpuPercent = (cpuDelta / systemDelta) * numberCpus * 100.0;] *)
Definition cpuPercent (s : StatsResponse) : Js.number :=
  if Js.gt (systemDelta s) 0%float && Js.gt (cpuDelta s) 0%float
  then ((cpuDelta s / systemDelta s) * numberCpus s * 100)%float
  else 0%float.

(** [s.memory_stats.usage - (s.memory_stats.stats?.cache || 0)] *)
Definition memUsage (s : StatsResponse) : Js.number :=
  (Memory.usage (memory_stats s)
   - match Memory.stats (memory_stats s) with
     | Some d =>
         match Memory.cache d with
         | Some c => if Js.truthy c then c else 0
         | None => 0
         end
     | None => 0
     end)%float.

(** A payload built from the five counters of the derivation, with the
    optional per-CPU array and memory detail as given. *)
Definition counters (cur_cpu prev_cpu cur_sys prev_sys : Js.number)
    (cpus : option Js.number) (percpu : option (list Js.number))
    (mem : Memory.t) : StatsResponse :=
  {| cpu_stats :=
       {| Cpu.cpu_usage := {| Cpu.total_usage := cur_cpu |};
          Cpu.system_cpu_usage := cur_sys;
          Cpu.online_cpus := cpus |};
     precpu_stats :=
       {| PreCpu.cpu_usage := {| PreCpu.total_usage := prev_cpu;
                                 PreCpu.percpu_usage := percpu |};
          PreCpu.system_cpu_usage := prev_sys |};
     memory_stats := mem |}.

(** ** The batch envelope and the hook's [forEach] *)

(** One element of [result.data]:
    [{ id: string; success: boolean; data?: any; error?: string }]. *)
Module BatchEntry.
Record t := {
  id : string;
  success : bool;
  data : option StatsResponse;
  error : option string
}.
End BatchEntry.

(** The envelope of a one-shot command:
    [{ success: boolean; data?: T; error?: string }]. *)
Module ApiResult.
Record t (T : Type) := {
  success : bool;
  data : option T;
  error : option string
}.
Arguments success {T} _.
Arguments data {T} _.
Arguments error {T} _.
End ApiResult.

(** [interface ContainerStats { cpu: string; mem: string }] *)
Record ContainerStats := { cpu : string; mem : string }.

(** An object created by [{}] and written to by [statsMap[key] = value]
    only: its own properties, and its prototype when that is no longer
    [Object.prototype]. *)
Module StatsObject.
Record t := {
  own : gmap string ContainerStats;
  proto : option ContainerStats
}.
End StatsObject.

Section Hook.

(** [Number.prototype.toFixed(2)] and [byteSize(n).toString()] of the
    byte-size package; neither is defined in this repository. *)
Variable toFixed2 : Js.number → string.
Variable byteSize : Js.number → string.

(** The value the [forEach] callback stores under [res.id]. *)
Definition entryStats (res : BatchEntry.t) : ContainerStats :=
  match BatchEntry.success res, BatchEntry.data res with
  | true, Some s =>
      {| cpu := toFixed2 (cpuPercent s) +:+ "%";
         mem := byteSize (memUsage s) |}
  | _, _ => {| cpu := "0%"; mem := "0 B" |}
  end.

(** [result.data.forEach((res) => { ... statsMap[res.id] = ... })] starting
    from [statsMap = {}], read as a dictionary from identifiers to values.
    The one identifier under which JavaScript stores no property,
    ["__proto__"], is treated by [buildStatsObject] below. *)
Definition buildStatsMap (data : list BatchEntry.t) : gmap string ContainerStats :=
  foldl (λ statsMap res, <[BatchEntry.id res := entryStats res]> statsMap) ∅ data.

(** [statsMap[res.id] = ...] on the object itself. Under the key
    ["__proto__"] the assignment reaches the setter inherited from
    [Object.prototype]: the value, an object, becomes the prototype of
    [statsMap] and no property is added. Under any other key it defines or
    overwrites an own property. *)
Definition storeStats (statsMap : StatsObject.t) (res : BatchEntry.t) : StatsObject.t :=
  if bool_decide (BatchEntry.id res = "__proto__")
  then {| StatsObject.own := StatsObject.own statsMap;
          StatsObject.proto := Some (entryStats res) |}
  else {| StatsObject.own :=
            <[BatchEntry.id res := entryStats res]> (StatsObject.own statsMap);
          StatsObject.proto := StatsObject.proto statsMap |}.

(** The same [forEach] as [buildStatsMap], on the object: [buildStatsMap]
    gives its own properties as long as no identifier is ["__proto__"]. *)
Definition buildStatsObject (data : list BatchEntry.t) : StatsObject.t :=
  foldl storeStats {| StatsObject.own := ∅; StatsObject.proto := None |} data.


End Hook.

(** ** The backend command [get_batch_stats] *)

Section Backend.

(** The runtime adapter's [stats(id)]: a sample or an error message. *)
Variable stats : string → StatsResponse + string.

(** Modelled from the spec: the per-identifier result of the Batch Stats
    Collector, which is success with the sample, or failure with the error,
    for that identifier alone. *)
Definition statsEntry (id : string) : BatchEntry.t :=
  match stats id with
  | inl s => {| BatchEntry.id := id; BatchEntry.success := true;
                BatchEntry.data := Some s; BatchEntry.error := None |}
  | inr e => {| BatchEntry.id := id; BatchEntry.success := false;
                BatchEntry.data := None; BatchEntry.error := Some e |}
  end.


End Backend.

(** ** The command surface: [interface AppApi] *)

(** The fragment of TypeScript types the interface is written in. A field
    or parameter is a name, whether it is optional ([?]), and its type. *)
Inductive ty :=
| TString | TNumber | TBoolean | TVoid | TAny
| TArray (elt : ty)
| TPromise (res : ty)
| TObject (fields : list field)
| TArrow (params : list field) (ret : ty)
with field :=
| Field (name : string) (opt : bool) (t : ty).

Definition required (name : string) (t : ty) : field := Field name false t.
Definition optional (name : string) (t : ty) : field := Field name true t.
Definition field_name (f : field) : string := let 'Field name _ _ := f in name.

(** [{ success: boolean; data?: T; error?: string }], and the same without
    the [data] field. *)
Definition Envelope (T : ty) : ty :=
  TObject [required "success" TBoolean; optional "data" T; optional "error" TString].
Definition EnvelopeNoData : ty :=
  TObject [required "success" TBoolean; optional "error" TString].

(** The members of [AppApi], in declaration order. *)
Definition AppApi : list (string * ty) :=
  [ ("listContainers", TArrow [] (TPromise (Envelope (TArray TAny))));
    ("containerAction",
       TArrow [required "id" TString; required "action" TString]
              (TPromise EnvelopeNoData));
    ("startLogs",
       TArrow [required "id" TString;
               required "onData" (TArrow [required "data" TString] TVoid);
               optional "options" (TObject [optional "timestamps" TBoolean])]
              (TArrow [] TVoid));
    ("startExec",
       TArrow [required "sessionId" TString; required "cols" TNumber;
               required "rows" TNumber;
               required "onData" (TArrow [required "data" TString] TVoid);
               required "containerId" TString]
              (TObject
                 [required "write" (TArrow [required "data" TString] TVoid);
                  required "resize"
                    (TArrow [required "w" TNumber; required "h" TNumber] TVoid);
                  required "dispose" (TArrow [] TVoid)]));
    ("listImages", TArrow [] (TPromise (Envelope (TArray TAny))));
    ("removeImage", TArrow [required "id" TString] (TPromise EnvelopeNoData));
    ("pullImage",
       TArrow [required "imageName" TString;
               required "onProgress" (TArrow [required "p" TAny] TVoid);
               required "onEnd" (TArrow [required "res" TAny] TVoid);
               required "onError" (TArrow [required "err" TString] TVoid)]
              (TArrow [] TVoid));
    ("listVolumes", TArrow [] (TPromise (Envelope (TArray TAny))));
    ("removeVolume", TArrow [required "name" TString] (TPromise EnvelopeNoData));
    ("listNetworks", TArrow [] (TPromise (Envelope (TArray TAny))));
    ("getContainerStats",
       TArrow [required "id" TString] (TPromise (Envelope TAny)));
    ("getBatchStats",
       TArrow [required "ids" (TArray TString)]
              (TPromise (Envelope (TArray
                 (TObject [required "id" TString; required "success" TBoolean;
                           optional "data" TAny; optional "error" TString])))));
    ("openExternal", TArrow [required "url" TString] (TPromise EnvelopeNoData));
    ("getAppVersion", TArrow [] (TPromise TString)) ].

(** A field that may occur in the uniform envelope. *)
Definition envelope_field (f : field) : bool :=
  let 'Field name opt t := f in
  if String.eqb name "success" then
    negb opt && match t with TBoolean => true | _ => false end
  else if String.eqb name "data" then opt
  else if String.eqb name "error" then
    opt && match t with TString => true | _ => false end
  else false.

(** [t] is the uniform envelope: an object with a [success] field and
    nothing beyond [success], [data?] and [error?]. *)
Definition is_envelope (t : ty) : bool :=
  match t with
  | TObject fields =>
      existsb (λ f, String.eqb (field_name f) "success") fields
      && forallb envelope_field fields
  | _ => false
  end.

(** What a caller gets from a member once the call has completed: the
    result of the promise for an [async] member, the returned value
    otherwise. *)
Definition outcome (t : ty) : ty :=
  match t with
  | TArrow _ (TPromise res) => res
  | TArrow _ ret => ret
  | _ => t
  end.

Definition returns_envelope (t : ty) : bool := is_envelope (outcome t).

(** ** Streaming sessions: [startLogs], [startExec], [pullImage]

    Each of the three functions creates a closure over two mutable locals,
    [active] and [unlisten], starts the asynchronous [setup] and returns
    the functions that cancel the session. The embedding is a state machine:
    the state holds the two locals, the point at which [setup] is suspended
    and whether the event handler is still registered; a stimulus is
    something the event loop runs next (a promise settling, an event on the
    session channel, the caller using the returned handle); a step yields
    the calls made to the outside, in program order. How a callback of the
    caller ends (it returns or it throws) changes what the closure does in
    one place only, the [try] block of [pullImage], and is a parameter
    there; an exception of [onData] or [onProgress] leaves the handler and
    the closure as they are. *)

Module Session.

(** A value in the payload of an [invoke]: a string, or the log options
    object [{ timestamps?: boolean }]. *)
Inductive arg :=
| Str (s : string)
| Options (timestamps : option bool).

(** What the backend answers to an awaited command: [{ success; error? }]. *)
Record reply := { success : bool; error : option string }.

(** How a call of a callback ends: it returns, or it throws [e]. Of a thrown
    value, as of a rejection reason, only [e.toString()] is used: a string,
    or nothing when that call throws in turn (as for [null] and
    [undefined]). *)
Inductive completion :=
| Returns
| Throws (e : option string).

(** Calls made by the closure to the outside. *)
Inductive effect :=
| Listen (eventName : string)
| Invoke (cmd : string) (payload : list (string * arg))
| Unlisten
| OnData (data : string)
| OnProgress (p : string)
| OnEnd (res : reply)
| OnError (err : string).

(** The function [listen] resolves with. *)
Inductive unlisten_fn := cleanup.

(** Where [setup] is suspended: at [await listen(...)], at
    [await invoke(...)], or not any more. *)
Inductive pc := AwaitListen | AwaitInvoke | Finished.

Record closure := {
  active : bool;
  unlisten : option unlisten_fn;
  subscribed : bool;
  setup : pc
}.

(** The handle returned by [startLogs] and [pullImage] is one function;
    the handle returned by [startExec] has three. *)
Inductive cancel_call := Cancel.
Inductive exec_call :=
| Write (data : string)
| Resize (w h : Js.number)
| Dispose.

(** What the event loop runs next. The handler passed to [listen] may be
    called from the moment [listen] is called until the function it
    resolves with has been called. A rejection carries what [e.toString()]
    gives for its reason [e], if anything. *)
Inductive stimulus (call : Type) :=
| ListenResolves
| ListenRejects
| Emit (payload : string)
| InvokeResolves (res : reply)
| InvokeRejects (e : option string)
| Call (c : call).
Arguments ListenResolves {call}.
Arguments ListenRejects {call}.
Arguments Emit {call} _.
Arguments InvokeResolves {call} _.
Arguments InvokeRejects {call} _.
Arguments Call {call} _.

(** [active = false] *)
Definition deactivate (st : closure) : closure :=
  {| active := false; unlisten := unlisten st;
     subscribed := subscribed st; setup := setup st |}.

(** [unlisten = cleanup] *)
Definition assign_unlisten (st : closure) : closure :=
  {| active := active st; unlisten := Some cleanup;
     subscribed := subscribed st; setup := setup st |}.

(** The state after [cleanup()] has been called. *)
Definition unsubscribe (st : closure) : closure :=
  {| active := active st; unlisten := unlisten st;
     subscribed := false; setup := setup st |}.

(** [setup] moves on to its next suspension point. *)
Definition suspend_at (p : pc) (st : closure) : closure :=
  {| active := active st; unlisten := unlisten st;
     subscribed := subscribed st; setup := p |}.

(** The state right after the synchronous part of a start function:
    [active = true], [unlisten] undefined, [listen] called and pending. *)
Definition started : closure :=
  {| active := true; unlisten := None; subscribed := true; setup := AwaitListen |}.

(** Run the machine over a sequence of stimuli, collecting the effects. *)
Fixpoint run {I : Type} (step : closure → I → closure * list effect)
    (st : closure) (ins : list I) : closure * list effect :=
  match ins with
  | [] => (st, [])
  | i :: ins =>
      let '(st1, e1) := step st i in
      let '(st2, e2) := run step st1 ins in
      (st2, e1 ++ e2)
  end.

(** [const eventName = `logs-${sessionId}`] and its two siblings. *)
Definition eventName (prefix sessionId : string) : string :=
  prefix +:+ "-" +:+ sessionId.

(** *** [startLogs] *)

Section StartLogs.

Variable id : string.
Variable options : option (option bool).
(** The value drawn by [Math.random().toString(36).substring(7)]. *)
Variable sessionId : string.

Definition startLogs_step (st : closure) (i : stimulus cancel_call)
    : closure * list effect :=
  match i with
  | ListenResolves =>
      match setup st with
      | AwaitListen =>
          let st := assign_unlisten st in
          if active st
          then (suspend_at AwaitInvoke st,
                [Invoke "start_logs"
                   [("id", Str id); ("sessionId", Str sessionId);
                    ("options", Options (default None options))]])
          else (suspend_at Finished (unsubscribe st), [Unlisten])
      | _ => (st, [])
      end
  | ListenRejects =>
      match setup st with
      | AwaitListen => (suspend_at Finished (unsubscribe st), [])
      | _ => (st, [])
      end
  | Emit payload =>
      (st, if subscribed st && active st then [OnData payload] else [])
  | InvokeResolves _ | InvokeRejects _ =>
      match setup st with
      | AwaitInvoke => (suspend_at Finished st, [])
      | _ => (st, [])
      end
  | Call Cancel =>
      let st := deactivate st in
      match unlisten st with
      | Some cleanup =>
          (unsubscribe st,
           [Unlisten; Invoke "stop_logs" [("sessionId", Str sessionId)]])
      | None => (st, [Invoke "stop_logs" [("sessionId", Str sessionId)]])
      end
  end.

(** The whole life of one [startLogs] call under the stimuli [ins]. *)
Definition startLogs (ins : list (stimulus cancel_call)) : closure * list effect :=
  let '(st, es) := run startLogs_step started ins in
  (st, Listen (eventName "logs" sessionId) :: es).

End StartLogs.

(** *** [startExec] *)

Section StartExec.

Variable sessionId : string.
Variable containerId : string.

Definition startExec_step (st : closure) (i : stimulus exec_call)
    : closure * list effect :=
  match i with
  | ListenResolves =>
      match setup st with
      | AwaitListen =>
          let st := assign_unlisten st in
          if active st
          then (suspend_at AwaitInvoke st,
                [Invoke "start_exec"
                   [("sessionId", Str sessionId); ("containerId", Str containerId)]])
          else (suspend_at Finished (unsubscribe st), [Unlisten])
      | _ => (st, [])
      end
  | ListenRejects =>
      match setup st with
      | AwaitListen => (suspend_at Finished (unsubscribe st), [])
      | _ => (st, [])
      end
  | Emit payload =>
      (st, if subscribed st && active st then [OnData payload] else [])
  | InvokeResolves _ | InvokeRejects _ =>
      match setup st with
      | AwaitInvoke => (suspend_at Finished st, [])
      | _ => (st, [])
      end
  | Call (Write data) =>
      (st, if active st
           then [Invoke "exec_input" [("sessionId", Str sessionId); ("data", Str data)]]
           else [])
  | Call (Resize _ _) => (st, [])
  | Call Dispose =>
      let st := deactivate st in
      match unlisten st with
      | Some cleanup =>
          (unsubscribe st,
           [Unlisten; Invoke "stop_exec" [("sessionId", Str sessionId)]])
      | None => (st, [Invoke "stop_exec" [("sessionId", Str sessionId)]])
      end
  end.

(** The whole life of one [startExec] call; the initial [_cols] and [_rows]
    are not used by the function. *)
Definition startExec (_cols _rows : Js.number) (ins : list (stimulus exec_call))
    : closure * list effect :=
  let '(st, es) := run startExec_step started ins in
  (st, Listen (eventName "exec" sessionId) :: es).

End StartExec.

(** *** [pullImage] *)

Section PullImage.

Variable imageName : string.
(** How the caller's [onEnd] and [onError] end when they are called with
    the given argument. *)
Variable onEnd : reply → completion.
Variable onError : string → completion.
(** The value drawn by [Math.random().toString(36).substring(7)]. *)
Variable sessionId : string.

(** [res.error || "Unknown error"] *)
Definition errorOrUnknown (res : reply) : string :=
  match error res with
  | Some e => if Js.truthy_string e then e else "Unknown error"
  | None => "Unknown error"
  end.

(** The [catch] block, [onError(e.toString())]: when [e.toString()] throws,
    [onError] is not reached. What the block throws leaves [setup] through
    [finally]. *)
Definition catchBlock (e : option string) : list effect :=
  match e with
  | Some text => [OnError text]
  | None => []
  end.

(** The [try] block from [if (res.success)] on: the callback is called, and
    when it throws the [catch] block runs. *)
Definition tryBlock (res : reply) : list effect :=
  if success res
  then OnEnd res
       :: match onEnd res with
          | Returns => []
          | Throws e => catchBlock e
          end
  else OnError (errorOrUnknown res)
       :: match onError (errorOrUnknown res) with
          | Returns => []
          | Throws e => catchBlock e
          end.

Definition pullImage_step (st : closure) (i : stimulus cancel_call)
    : closure * list effect :=
  match i with
  | ListenResolves =>
      match setup st with
      | AwaitListen =>
          let st := assign_unlisten st in
          if active st
          then (suspend_at AwaitInvoke st,
                [Invoke "pull_image"
                   [("image", Str imageName); ("sessionId", Str sessionId)]])
          else (suspend_at Finished (unsubscribe st), [Unlisten])
      | _ => (st, [])
      end
  | ListenRejects =>
      match setup st with
      | AwaitListen => (suspend_at Finished (unsubscribe st), [])
      | _ => (st, [])
      end
  | Emit payload =>
      (st, if subscribed st && active st then [OnProgress payload] else [])
  | InvokeResolves res =>
      match setup st with
      | AwaitInvoke =>
          (suspend_at Finished (unsubscribe st), tryBlock res ++ [Unlisten])
      | _ => (st, [])
      end
  | InvokeRejects e =>
      match setup st with
      | AwaitInvoke =>
          (suspend_at Finished (unsubscribe st), catchBlock e ++ [Unlisten])
      | _ => (st, [])
      end
  | Call Cancel =>
      let st := deactivate st in
      match unlisten st with
      | Some cleanup =>
          (unsubscribe st,
           [Unlisten; Invoke "stop_pull" [("sessionId", Str sessionId)]])
      | None => (st, [Invoke "stop_pull" [("sessionId", Str sessionId)]])
      end
  end.

(** The whole life of one [pullImage] call under the stimuli [ins]. *)
Definition pullImage (ins : list (stimulus cancel_call)) : closure * list effect :=
  let '(st, es) := run pullImage_step started ins in
  (st, Listen (eventName "pull" sessionId) :: es).

End PullImage.

(** Callbacks that return, whatever they are called with. *)
Definition returning {A : Type} (_ : A) : completion := Returns.

(** The terminal notifications of a pull: [onEnd] and [onError]. *)
Definition terminal (e : effect) : bool :=
  match e with
  | OnEnd _ | OnError _ => true
  | _ => false
  end.

(** An [invoke] of the command [cmd]. *)
Definition invokes (cmd : string) (e : effect) : bool :=
  match e with
  | Invoke c _ => String.eqb c cmd
  | _ => false
  end.

(** A payload handed to [onData] or [onProgress]. *)
Definition delivers (e : effect) : bool :=
  match e with
  | OnData _ | OnProgress _ => true
  | _ => false
  end.

(** The terminal notifications among the effects, and whether the command
    [cmd] was issued. *)
Definition notifications (es : list effect) : list effect := List.filter terminal es.
Definition issued (cmd : string) (es : list effect) : bool := existsb (invokes cmd) es.

(** What "cancelled before attach" promises of a session machine whose
    handle cancels with [cancel] and whose backend start command is
    [start_cmd]: take any run [pre] after which [setup] still awaits
    [listen], then the cancel call, then any further stimuli [post]. *)
Definition cancel_before_attach_is_clean {C : Type}
    (step : closure → stimulus C → closure * list effect)
    (cancel : C) (start_cmd : string) : Prop :=
  ∀ pre post : list (stimulus C),
    setup (run step started pre).1 = AwaitListen →
    (* the start command is issued neither before nor after the cancel *)
    issued start_cmd (run step started (pre ++ Call cancel :: post)).2 = false
    (* when [listen] resolves, the listener is removed in that very step *)
    ∧ (∀ post1 : list (stimulus C),
         ListenResolves ∉ post1 → ListenRejects ∉ post1 →
         let st := (run step started (pre ++ Call cancel :: post1)).1 in
         (step st ListenResolves).2 = [Unlisten]
         ∧ subscribed (step st ListenResolves).1 = false)
    (* and no subscription is left once [listen] has settled *)
    ∧ (ListenResolves ∈ post ∨ ListenRejects ∈ post →
         subscribed (run step started (pre ++ Call cancel :: post)).1 = false).

(** The step facts shared by the three session machines. *)
Class GuardedStart {C : Type} (step : closure → stimulus C → closure * list effect)
    (cancel : C) (start_cmd : string) : Prop := {
  inactive_step : ∀ st i, active st = false →
    active (step st i).1 = false ∧ issued start_cmd (step st i).2 = false;
  waiting_step : ∀ st i, setup (step st i).1 = AwaitListen →
    setup st = AwaitListen ∧ issued start_cmd (step st i).2 = false;
  cancel_step : ∀ st,
    active (step st (Call cancel)).1 = false
    ∧ setup (step st (Call cancel)).1 = setup st
    ∧ issued start_cmd (step st (Call cancel)).2 = false;
  still_waiting_step : ∀ st i, setup st = AwaitListen →
    i ≠ ListenResolves → i ≠ ListenRejects →
    setup (step st i).1 = AwaitListen;
  late_attach_step : ∀ st, active st = false → setup st = AwaitListen →
    (step st ListenResolves).2 = [Unlisten]
    ∧ subscribed (step st ListenResolves).1 = false
    ∧ setup (step st ListenResolves).1 = Finished;
  failed_attach_step : ∀ st, setup st = AwaitListen →
    subscribed (step st ListenRejects).1 = false
    ∧ setup (step st ListenRejects).1 = Finished;
  closed_step : ∀ st i, active st = false → setup st = Finished →
    subscribed st = false →
    setup (step st i).1 = Finished ∧ subscribed (step st i).1 = false
}.

End Session.

(** ** The backend side of a pull session *)

Module PullBackend.

(** Modelled from the spec: the backend Pull Session behind the commands
    [pull_image] and [stop_pull] is not part of the front-end sources.
    Following the spec (Session in the data model, Session Registry, Pull
    Session, Resource release): a session is [Starting], becomes [Active]
    once the runtime attach succeeds, and becomes [Completed], [Cancelled]
    or [Failed] exactly once; while it is [Active] every progress record of
    the runtime is emitted as an event on the session channel, in arrival
    order; [Stop] cancels a live session, which aborts the underlying
    transfer, and is a no-op on a session that is over; once the session
    is over its runtime attachment is released and nothing more is
    emitted. *)
Inductive status :=
| Starting
| Active
| Cancelled
| Completed
| Failed (reason : string).

(** Modelled from the spec: what reaches the session, from the runtime (the
    attach succeeding, a progress record, the end of the stream, a failure)
    or from the UI (the [Stop] command carried by [stop_pull]). *)
Inductive input :=
| Attached
| Record (progress : string)
| EndOfStream
| RuntimeError (reason : string)
| Stop.

(** Modelled from the spec: what the session does: it emits an event on its
    channel, or it aborts the transfer it holds at the runtime. *)
Inductive output :=
| EmitEvent (progress : string)
| AbortTransfer.


(** Modelled from the spec: one step of the Pull Session state machine. *)
Definition step (s : status) (i : input) : status * list output :=
  match s, i with
  | Starting, Attached => (Active, [])
  | Starting, RuntimeError reason => (Failed reason, [])
  | Active, Record progress => (Active, [EmitEvent progress])
  | Active, EndOfStream => (Completed, [])
  | Active, RuntimeError reason => (Failed reason, [])
  | Starting, Stop | Active, Stop => (Cancelled, [AbortTransfer])
  | _, _ => (s, [])
  end.

Fixpoint run (s : status) (ins : list input) : status * list output :=
  match ins with
  | [] => (s, [])
  | i :: ins =>
      let '(s1, o1) := step s i in
      let '(s2, o2) := run s1 ins in
      (s2, o1 ++ o2)
  end.


End PullBackend.

(** ** Fixtures *)

(** The counters of the worked example, with 4096 bytes in use of which 1024
    are page cache. *)
Definition fixture_sample : StatsResponse :=
  counters 200 100 1200 1000 (Some 4%float) None
    {| Memory.usage := 4096%float;
       Memory.stats := Some {| Memory.cache := Some 1024%float |} |}.

(** The same counters with no [online_cpus] and eight per-CPU entries. *)
Definition fixture_percpu_sample : StatsResponse :=
  counters 200 100 1200 1000 None
    (Some [1; 2; 3; 4; 5; 6; 7; 8]%float)
    {| Memory.usage := 0%float; Memory.stats := None |}.

(** A runtime in which the containers [ghost1] and [ghost2] do not exist and
    every other one reports [fixture_sample]. *)
Definition fixture_stats (id : string) : StatsResponse + string :=
  if bool_decide (id ∈ ["ghost1"; "ghost2"])
  then inr ("No such container: " +:+ id)
  else inl fixture_sample.

(** ** Observations on a session run *)

Module Trace.
Import Session.

(** The payloads emitted on the session channel, in arrival order. *)
Definition emitted {C : Type} (ins : list (stimulus C)) : list string :=
  omap (λ i, match i with Emit payload => Some payload | _ => None end) ins.

(** The data of the [write] calls made on an exec handle, in call order. *)
Definition written (ins : list (stimulus exec_call)) : list string :=
  omap (λ i, match i with Call (Write data) => Some data | _ => None end) ins.

(** A call of the cancel function returned by [startLogs] or [pullImage]. *)
Definition is_cancel (i : stimulus cancel_call) : bool :=
  match i with Call Cancel => true | _ => false end.

(** A call of [dispose] on an exec handle. *)
Definition is_dispose (i : stimulus exec_call) : bool :=
  match i with Call Dispose => true | _ => false end.

(** The promise of [listen] settling, one way or the other. *)
Definition listen_settles {C : Type} (i : stimulus C) : bool :=
  match i with ListenResolves | ListenRejects => true | _ => false end.

(** The cleanup function being called. *)
Definition unlistens (e : effect) : bool :=
  match e with Unlisten => true | _ => false end.

End Trace.

(** ** The list hooks: [useContainers], [useImages], [useNetworks], [useVolumes]

    The four hooks hold the same three pieces of state and refresh them
    with the same function ([fetchContainers], [fetchImages],
    [fetchNetworks], [fetchVolumes]), which differ in the list command they
    await only. *)

Module ListHook.

(** [const [items, setItems] = useState([]); const [loading, ...] =
    useState(true); const [error, ...] = useState(null)] *)
Record state (A : Type) := {
  items : list A;
  loading : bool;
  error : option string
}.
Arguments items {A} _.
Arguments loading {A} _.
Arguments error {A} _.

(** How the awaited list command settled: resolved with an envelope;
    rejected with [err], of which [err.message] is kept (nothing when [err]
    has no such property, as a string has none); or rejected with [null] or
    [undefined], of which [err.message] cannot be read. *)
Inductive settled (A : Type) :=
| Resolved (result : ApiResult.t (list A))
| Rejected (message : option string)
| RejectedNullish.
Arguments Resolved {A} _.
Arguments Rejected {A} _.
Arguments RejectedNullish {A}.

Definition initial {A : Type} : state A :=
  {| items := []; loading := true; error := None |}.

(** [result.error || 'Unknown error'] *)
Definition errorOrUnknown (e : option string) : string :=
  match e with
  | Some e => if Js.truthy_string e then e else "Unknown error"
  | None => "Unknown error"
  end.

(** One run of the fetch function, from the state before to the state
    after. When [err.message] throws in the [catch] block, [setError] is not
    reached and [finally] still runs. *)
Definition fetch {A : Type} (st : state A) (o : settled A) : state A :=
  match o with
  | Resolved result =>
      match ApiResult.success result, ApiResult.data result with
      | true, Some data =>
          {| items := data; loading := false; error := error st |}
      | _, _ =>
          {| items := items st; loading := false;
             error := Some (errorOrUnknown (ApiResult.error result)) |}
      end
  | Rejected message =>
      {| items := items st; loading := false; error := message |}
  | RejectedNullish =>
      {| items := items st; loading := false; error := error st |}
  end.

(** The state after the refreshes that settled, in the order they settled. *)
Definition poll {A : Type} (st : state A) (os : list (settled A)) : state A :=
  foldl fetch st os.

(** The refresh took the branch that stores the list. *)
Definition loaded {A : Type} (o : settled A) : bool :=
  match o with
  | Resolved result =>
      ApiResult.success result
      && match ApiResult.data result with Some _ => true | None => false end
  | Rejected _ | RejectedNullish => false
  end.

(** Two envelopes for the examples: a list, and a failure. *)
Definition listing (names : list string) : ApiResult.t (list string) :=
  {| ApiResult.success := true; ApiResult.data := Some names;
     ApiResult.error := None |}.
Definition failure (e : option string) : ApiResult.t (list string) :=
  {| ApiResult.success := false; ApiResult.data := None;
     ApiResult.error := e |}.

End ListHook.

(** ** [useSortable]: the sort configuration *)

Module Sortable.

Inductive Direction := ascending | descending.

(** [interface SortConfig { key: string | null; direction }] *)
Record SortConfig := { key : option string; direction : Direction }.

(** [requestSort(key)], from the configuration before to the one set. *)
Definition requestSort (sortConfig : SortConfig) (key' : string) : SortConfig :=
  {| key := Some key';
     direction :=
       if bool_decide (key sortConfig = Some key')
          && match direction sortConfig with ascending => true | descending => false end
       then descending else ascending |}.

End Sortable.

(** ** [App]: [checkAndStartDocker] *)

Module DockerStartup.

(** How an awaited command settled; a rejection carries what
    [error.toString()] gives for its reason, which is nothing when that
    call throws (as for [null] and [undefined]). *)
Inductive settled (T : Type) :=
| Resolves (result : ApiResult.t T)
| Rejects (e : option string).
Arguments Resolves {T} _.
Arguments Rejects {T} _.

(** What the four lifecycle commands answer. *)
Record backend := {
  checkDockerRunning : settled bool;
  checkColimaInstalled : settled bool;
  startDocker : settled unit;
  waitForDocker : Js.number → settled unit
}.

(** What the function does, in program order: the state setters it calls
    and the commands it awaits. *)
Inductive action :=
| SetDockerState (s : string)
| SetErrorMessage (m : option string)
| Await (method : string).

Definition DOCKER_TIMEOUT_SECONDS : Js.number := 300%float.

(** [result.success && result.data] for a boolean payload. *)
Definition succeeded_true (result : ApiResult.t bool) : bool :=
  ApiResult.success result
  && match ApiResult.data result with Some true => true | _ => false end.

(** [error || fallback] *)
Definition errorOr (fallback : string) (e : option string) : string :=
  match e with
  | Some e => if Js.truthy_string e then e else fallback
  | None => fallback
  end.

(** The [catch] block: [setDockerState('error')], then
    [setErrorMessage(error.toString())], which is not reached when
    [error.toString()] throws. *)
Definition caught (e : option string) : list action :=
  SetDockerState "error"
  :: match e with
     | Some text => [SetErrorMessage (Some text)]
     | None => []
     end.

Definition checkAndStartDocker (b : backend) : list action :=
  [SetDockerState "checking"; SetErrorMessage None; Await "checkDockerRunning"]
  ++ match checkDockerRunning b with
     | Rejects e => caught e
     | Resolves runningResult =>
         if succeeded_true runningResult then [SetDockerState "ready"]
         else
           Await "checkColimaInstalled"
           :: match checkColimaInstalled b with
              | Rejects e => caught e
              | Resolves colimaResult =>
                  if negb (succeeded_true colimaResult)
                  then [SetDockerState "not-installed"]
                  else
                    SetDockerState "starting" :: Await "startDocker"
                    :: match startDocker b with
                       | Rejects e => caught e
                       | Resolves startResult =>
                           if negb (ApiResult.success startResult)
                           then [SetDockerState "error";
                                 SetErrorMessage
                                   (Some (errorOr "Failed to start Docker"
                                            (ApiResult.error startResult)))]
                           else
                             Await "waitForDocker"
                             :: match waitForDocker b DOCKER_TIMEOUT_SECONDS with
                                | Rejects e => caught e
                                | Resolves waitResult =>
                                    if negb (ApiResult.success waitResult)
                                    then [SetDockerState "error";
                                          SetErrorMessage
                                            (Some (errorOr "Docker did not start in time"
                                                     (ApiResult.error waitResult)))]
                                    else [SetDockerState "ready"]
                                end
                       end
              end
     end.

(** The React state after the actions: the last value given to each
    setter. *)
Definition perform (st : string * option string) (a : action) : string * option string :=
  match a with
  | SetDockerState s => (s, st.2)
  | SetErrorMessage m => (st.1, m)
  | Await _ => st
  end.

(** [dockerState] and [errorMessage] once the function has run, from the
    values [st] they had before (the initial ones, or those a previous run
    left when the function is called again by the retry button). *)
Definition dockerState (st : string * option string) (acts : list action) : string :=
  (foldl perform st acts).1.
Definition errorMessage (st : string * option string) (acts : list action)
    : option string :=
  (foldl perform st acts).2.

(** The commands awaited, in order. *)
Definition awaited (acts : list action) : list string :=
  omap (λ a, match a with Await m => Some m | _ => None end) acts.

(** A command that resolved with [success] (and a true payload). *)
Definition ok_true (s : settled bool) : bool :=
  match s with Resolves result => succeeded_true result | Rejects _ => false end.
Definition ok (s : settled unit) : bool :=
  match s with Resolves result => ApiResult.success result | Rejects _ => false end.
Definition resolved {T : Type} (s : settled T) : bool :=
  match s with Resolves _ => true | Rejects _ => false end.

(** The command did not reject with a reason that has no string form. *)
Definition string_form {T : Type} (s : settled T) : bool :=
  match s with Rejects None => false | _ => true end.

(** Two backends for the examples: Docker is down and Colima brings it up;
    Docker is down and starting it fails without a message. *)
Definition granted {T : Type} (data : option T) : settled T :=
  Resolves {| ApiResult.success := true; ApiResult.data := data;
              ApiResult.error := None |}.
Definition refused {T : Type} (e : option string) : settled T :=
  Resolves {| ApiResult.success := false; ApiResult.data := None;
              ApiResult.error := e |}.
Definition cold_start : backend :=
  {| checkDockerRunning := granted (Some false);
     checkColimaInstalled := granted (Some true);
     startDocker := granted None;
     waitForDocker := λ _, granted None |}.
Definition failed_start : backend :=
  {| checkDockerRunning := granted (Some false);
     checkColimaInstalled := granted (Some true);
     startDocker := refused None;
     waitForDocker := λ _, granted None |}.

End DockerStartup.

(** ** [LogsView]: pooled log streaming *)

Module LogPool.

(** The closure of the effect: [let buffer = ''], and whether
    [xtermRef.current] is set. *)
Record pool := { buffer : string; xterm : bool }.

(** A chunk handed to the [onData] callback of [startLogs], or a tick of
    [setInterval(flushBuffer, 50)]. *)
Inductive event :=
| Chunk (chunk : string)
| Tick.

(** The new closure and what is written to the terminal. *)
Definition step (st : pool) (ev : event) : pool * list string :=
  match ev with
  | Chunk chunk => ({| buffer := buffer st +:+ chunk; xterm := xterm st |}, [])
  | Tick =>
      if Js.truthy_string (buffer st) && xterm st
      then ({| buffer := ""; xterm := xterm st |}, [buffer st])
      else (st, [])
  end.

Fixpoint run (st : pool) (evs : list event) : pool * list string :=
  match evs with
  | [] => (st, [])
  | ev :: evs =>
      let '(st1, w1) := step st ev in
      let '(st2, w2) := run st1 evs in
      (st2, w1 ++ w2)
  end.

(** The chunks received, and the text of a sequence of writes. *)
Definition chunks (evs : list event) : list string :=
  omap (λ ev, match ev with Chunk c => Some c | Tick => None end) evs.
Definition text (ws : list string) : string := foldr String.append "" ws.

End LogPool.

(** ** [ImageList]: the progress lines of the pull dialog *)

Module PullLog.

(** A line of [pullLogs]: a progress payload, or [{ status: ... }] made by
    the error callback. *)
Inductive line :=
| Progress (p : string)
| Status (status : string).

(** [prev.slice(-4)] *)
Definition slice_last4 {A : Type} (prev : list A) : list A :=
  drop (length prev - 4) prev.

(** [setPullLogs(prev => [...prev.slice(-4), progress])] *)
Definition onProgress (prev : list line) (progress : string) : list line :=
  slice_last4 prev ++ [Progress progress].

(** [setPullLogs(prev => [...prev, { status: `Error: ${err}` }])] *)
Definition onError (prev : list line) (err : string) : list line :=
  prev ++ [Status ("Error: " +:+ err)].

(** [pullLogs] is state of the [ImageList] component: every [handlePull]
    resets it with [setPullLogs([])], and the progress and error callbacks
    of every pull session started by the component update it, those of a
    cancelled session included. *)
Inductive update :=
| Reset
| Report (progress : string)
| Fail (err : string).

Definition apply (prev : list line) (u : update) : list line :=
  match u with
  | Reset => []
  | Report progress => onProgress prev progress
  | Fail err => onError prev err
  end.

(** [pullLogs] after the updates [us], in the order React applies them. *)
Definition pullLogs (prev : list line) (us : list update) : list line :=
  foldl apply prev us.

Definition is_fail (u : update) : bool :=
  match u with Fail _ => true | _ => false end.

(** The updates made by the callbacks one pull session calls. *)
Definition updates (es : list Session.effect) : list update :=
  omap (λ e, match e with
             | Session.OnProgress p => Some (Report p)
             | Session.OnError err => Some (Fail err)
             | _ => None
             end) es.

End PullLog.

(** ** The terminal theme: [terminalTheme.ts] and the theme built in place
       by [ExecView] and [LogsView] *)

Module TerminalTheme.

(** ['light' | 'dark' | 'system'] *)
Inductive setting := light | dark | system.

(** The fields of [ITheme] that are set. *)
Record ITheme := {
  background : string;
  foreground : string;
  cursor : string;
  selectionBackground : string;
  black : string;
  red : string;
  green : string;
  yellow : string;
  blue : string;
  magenta : string;
  cyan : string;
  white : string
}.

(** [theme === 'dark' || (theme === 'system' && window.matchMedia(...).matches)];
    [prefersDark] is what the media query answers. *)
Definition isDarkTheme (prefersDark : bool) (theme : setting) : bool :=
  match theme with dark => true | _ => false end
  || (match theme with system => true | _ => false end && prefersDark).

Definition getTerminalTheme (prefersDark : bool) (theme : setting) : ITheme :=
  let isDark := isDarkTheme prefersDark theme in
  {| background := if isDark then "#0f0f10" else "#ffffff";
     foreground := if isDark then "#f4f4f5" else "#18181b";
     cursor := if isDark then "#f4f4f5" else "#18181b";
     selectionBackground := if isDark then "#3f3f46" else "#e4e4e7";
     black := if isDark then "#000000" else "#000000";
     red := "#ef4444";
     green := "#22c55e";
     yellow := "#f59e0b";
     blue := "#3b82f6";
     magenta := "#a855f7";
     cyan := "#06b6d4";
     white := if isDark then "#ffffff" else "#e5e7eb" |}.

(** The object literal [ExecView] and [LogsView] pass to [new Terminal] and
    assign to [options.theme] when the theme changes. *)
Definition inlineTheme (prefersDark : bool) (theme : setting) : ITheme :=
  let isDark :=
    match theme with dark => true | _ => false end
    || (match theme with system => true | _ => false end && prefersDark) in
  {| background := if isDark then "#0f0f10" else "#ffffff";
     foreground := if isDark then "#f4f4f5" else "#18181b";
     cursor := if isDark then "#f4f4f5" else "#18181b";
     selectionBackground := if isDark then "#3f3f46" else "#e4e4e7";
     black := if isDark then "#000000" else "#000000";
     red := "#ef4444";
     green := "#22c55e";
     yellow := "#f59e0b";
     blue := "#3b82f6";
     magenta := "#a855f7";
     cyan := "#06b6d4";
     white := if isDark then "#ffffff" else "#e5e7eb" |}.

End TerminalTheme.

(** * Properties *)

(** ** JavaScript numbers *)

(** [x - x > 0] is false for every number: the difference is [+0] when [x]
    is finite and [NaN] otherwise. *)
Lemma sub_diag_not_positive (x : Js.number) : Js.gt (x - x)%float 0%float = false.
Proof.
  unfold Js.gt. rewrite ltb_spec, sub_spec.
  change (Prim2SF 0%float) with (S754_zero false).
  destruct (Prim2SF x) as [[]|[]| |s m e]; try reflexivity.
  unfold SF64sub, SFsub. rewrite Z.sub_diag. reflexivity.
Qed.

(** ** CPU derivation *)

Lemma cpuPercent_positive (s : StatsResponse) :
  Js.gt (systemDelta s) 0%float = true →
  Js.gt (cpuDelta s) 0%float = true →
  cpuPercent s = (cpuDelta s / systemDelta s * numberCpus s * 100)%float.
Proof. intros Hs Hc. unfold cpuPercent. rewrite Hs, Hc. reflexivity. Qed.

Lemma cpuPercent_clamped (s : StatsResponse) :
  Js.gt (systemDelta s) 0%float = false ∨ Js.gt (cpuDelta s) 0%float = false →
  cpuPercent s = 0%float.
Proof.
  intros [H|H]; unfold cpuPercent; rewrite H; [reflexivity|].
  destruct (Js.gt (systemDelta s) 0%float); reflexivity.
Qed.

Lemma numberCpus_reported (s : StatsResponse) (n : Js.number) :
  Cpu.online_cpus (cpu_stats s) = Some n → Js.truthy n = true →
  numberCpus s = n.
Proof. intros Hn Ht. unfold numberCpus. rewrite Hn, Ht. reflexivity. Qed.

(** C1. With [n] the reported [online_cpus] (a CPU count, so not zero), the
    CPU percentage is [(cur.cpu_total - prev.cpu_total) /
    (cur.system_cpu - prev.system_cpu) * n * 100] when both deltas are
    strictly positive; it is the literal [0] as soon as one delta is not
    strictly positive, in particular whenever the two system counters are
    equal; the counters 200, 100, 1200, 1000 with 4 CPUs give 200. *)
Theorem cpu_percentage_formula :
  (∀ (s : StatsResponse) (n : Js.number),
      Cpu.online_cpus (cpu_stats s) = Some n → Js.truthy n = true →
      Js.gt (systemDelta s) 0%float = true →
      Js.gt (cpuDelta s) 0%float = true →
      cpuPercent s
      = ((Cpu.total_usage (Cpu.cpu_usage (cpu_stats s))
          - PreCpu.total_usage (PreCpu.cpu_usage (precpu_stats s)))
         / (Cpu.system_cpu_usage (cpu_stats s)
            - PreCpu.system_cpu_usage (precpu_stats s))
         * n * 100)%float)
  ∧ (∀ s : StatsResponse,
      Js.gt (systemDelta s) 0%float = true →
      Js.gt (cpuDelta s) 0%float = true →
      cpuPercent s = (cpuDelta s / systemDelta s * numberCpus s * 100)%float)
  ∧ (∀ s : StatsResponse,
      Js.gt (systemDelta s) 0%float = false ∨ Js.gt (cpuDelta s) 0%float = false →
      cpuPercent s = 0%float)
  ∧ (∀ cur prev sys cpus percpu mem,
      cpuPercent (counters cur prev sys sys cpus percpu mem) = 0%float)
  ∧ (∀ percpu mem,
      cpuPercent (counters 200 100 1200 1000 (Some 4%float) percpu mem)
      = 200%float)
  ∧ (∀ toFixed2 byteSize res s,
      BatchEntry.success res = true → BatchEntry.data res = Some s →
      cpu (entryStats toFixed2 byteSize res) = toFixed2 (cpuPercent s) +:+ "%").
Proof.
  split_and!.
  - intros s n Hn Ht Hs Hc.
    rewrite (cpuPercent_positive s Hs Hc), (numberCpus_reported s n Hn Ht).
    reflexivity.
  - apply cpuPercent_positive.
  - apply cpuPercent_clamped.
  - intros. apply cpuPercent_clamped. left. apply sub_diag_not_positive.
  - intros. vm_compute. reflexivity.
  - intros tf bs res s Hs Hd. unfold entryStats. rewrite Hs, Hd. reflexivity.
Qed.

(** At the spec's example the formula is evaluated, and gives 200. *)
Lemma cpu_percentage_formula_witness :
  cpuPercent fixture_sample = ((200 - 100) / (1200 - 1000) * 4 * 100)%float
  ∧ ((200 - 100) / (1200 - 1000) * 4 * 100)%float = 200%float.
Proof.
  split.
  - apply (proj1 cpu_percentage_formula fixture_sample 4%float); reflexivity.
  - reflexivity.
Defined.

(** C6. When [online_cpus] is not reported, the CPU count is the number of
    per-CPU entries of the previous sample; it is 1 when that array is
    missing too (and also when it is there but empty). *)
Theorem cpu_count_fallback (s : StatsResponse) :
  Cpu.online_cpus (cpu_stats s) = None →
  (∀ l : list Js.number,
      PreCpu.percpu_usage (PreCpu.cpu_usage (precpu_stats s)) = Some l →
      l ≠ [] → numberCpus s = Js.of_length (length l))
  ∧ (PreCpu.percpu_usage (PreCpu.cpu_usage (precpu_stats s)) = None →
      numberCpus s = 1%float)
  ∧ (PreCpu.percpu_usage (PreCpu.cpu_usage (precpu_stats s)) = Some [] →
      numberCpus s = 1%float).
Proof.
  intros Hn. unfold numberCpus, percpuCountOr1. rewrite Hn.
  split_and!.
  - intros l -> Hl. destruct l; [congruence | reflexivity].
  - intros ->. reflexivity.
  - intros ->. reflexivity.
Qed.

(** Eight per-CPU entries and no [online_cpus]: the count is 8. *)
Lemma cpu_count_fallback_witness :
  numberCpus fixture_percpu_sample = Js.of_length 8
  ∧ Js.of_length 8 = 8%float.
Proof.
  split; [|reflexivity].
  apply (proj1 (cpu_count_fallback fixture_percpu_sample eq_refl)
           [1; 2; 3; 4; 5; 6; 7; 8]%float eq_refl).
  discriminate.
Defined.

(** ** Memory derivation *)

(** C7. The memory figure of a successful entry is [usage] minus the cache
    bytes; the subtrahend is [0] when the cache bytes are absent (no
    [stats] object, or no [cache] in it), and the rendered [mem] of the
    entry is that figure. *)
Theorem memory_excludes_cache (s : StatsResponse) :
  (∀ d c, Memory.stats (memory_stats s) = Some d → Memory.cache d = Some c →
      Js.truthy c = true →
      memUsage s = (Memory.usage (memory_stats s) - c)%float)
  ∧ (∀ d c, Memory.stats (memory_stats s) = Some d → Memory.cache d = Some c →
      Js.truthy c = false →
      memUsage s = (Memory.usage (memory_stats s) - 0)%float)
  ∧ (Memory.stats (memory_stats s) = None
      ∨ (∃ d, Memory.stats (memory_stats s) = Some d ∧ Memory.cache d = None) →
      memUsage s = (Memory.usage (memory_stats s) - 0)%float)
  ∧ (∀ toFixed2 byteSize res,
      BatchEntry.success res = true → BatchEntry.data res = Some s →
      mem (entryStats toFixed2 byteSize res) = byteSize (memUsage s)).
Proof.
  unfold memUsage. split_and!.
  - intros d c -> -> ->. reflexivity.
  - intros d c -> -> ->. reflexivity.
  - intros [-> | (d & -> & ->)]; reflexivity.
  - intros tf bs res Hs Hd. unfold entryStats. rewrite Hs, Hd. reflexivity.
Qed.

(** 4096 bytes in use of which 1024 are page cache: 3072 are reported. *)
Lemma memory_excludes_cache_witness :
  memUsage fixture_sample = (4096 - 1024)%float
  ∧ (4096 - 1024)%float = 3072%float.
Proof.
  split; [|reflexivity].
  apply (proj1 (memory_excludes_cache fixture_sample)
           {| Memory.cache := Some 1024%float |} 1024%float); reflexivity.
Defined.

(** ** Batch stats *)

Section BatchProperties.

Variable toFixed2 : Js.number → string.
Variable byteSize : Js.number → string.
Variable stats : string → StatsResponse + string.







End BatchProperties.


(** ** The command surface *)

Lemma AppApi_cases (P : string → ty → Prop) :
  Forall (λ m, P m.1 m.2) AppApi → ∀ name t, (name, t) ∈ AppApi → P name t.
Proof.
  intros HP name t Hin. rewrite Forall_forall in HP. exact (HP _ Hin).
Qed.

(** C3, as stated, fails: [getAppVersion] is a member of the command surface
    and resolves with a bare string, which is not the uniform envelope. *)
Lemma getAppVersion_returns_bare_string :
  ("getAppVersion", TArrow [] (TPromise TString)) ∈ AppApi
  ∧ outcome (TArrow [] (TPromise TString)) = TString
  ∧ returns_envelope (TArrow [] (TPromise TString)) = false
  ∧ ¬ (∀ name t, (name, t) ∈ AppApi → returns_envelope t = true).
Proof.
  assert (Hin : ("getAppVersion", TArrow [] (TPromise TString)) ∈ AppApi).
  { apply list_elem_of_In. vm_compute. tauto. }
  split_and!; try reflexivity; [exact Hin|].
  intros H. specialize (H _ _ Hin). discriminate H.
Qed.

(** C3, amended. Every member of [AppApi] other than [getAppVersion] and the
    three session starters resolves with the uniform envelope; [getAppVersion]
    resolves with a string, [startLogs] and [pullImage] return a cancel
    function and [startExec] returns a handle. *)
Theorem one_shot_commands_return_envelope (name : string) (t : ty) :
  (name, t) ∈ AppApi →
  (name ∉ ["getAppVersion"; "startLogs"; "startExec"; "pullImage"] →
     returns_envelope t = true)
  ∧ (name = "getAppVersion" → outcome t = TString)
  ∧ (name ∈ ["startLogs"; "pullImage"] → outcome t = TArrow [] TVoid)
  ∧ (name ∈ ["getAppVersion"; "startLogs"; "startExec"; "pullImage"] →
     returns_envelope t = false).
Proof.
  revert name t. apply AppApi_cases.
  unfold AppApi. repeat apply Forall_cons_2; try apply Forall_nil_2; cbn [fst snd];
    (split_and!; intros H; first
      [ reflexivity
      | discriminate H
      | exfalso; apply H; apply (bool_decide_unpack _); exact I
      | exfalso; apply (bool_decide_pack _) in H; exact H ]).
Qed.

(** [getBatchStats] is one of the members that return the envelope. *)
Lemma one_shot_commands_return_envelope_witness :
  returns_envelope
    (TArrow [required "ids" (TArray TString)]
       (TPromise (Envelope (TArray
          (TObject [required "id" TString; required "success" TBoolean;
                    optional "data" TAny; optional "error" TString])))))
  = true.
Proof.
  refine (proj1 (one_shot_commands_return_envelope "getBatchStats" _ _) _).
  - apply list_elem_of_In. vm_compute. tauto.
  - intros H. apply (bool_decide_pack _) in H. exact H.
Defined.

(** ** Streaming sessions *)

Import Session.

Section Run.

Context {I : Type} (step : closure → I → closure * list effect).

Lemma run_cons (st : closure) (i : I) (ins : list I) :
  run step st (i :: ins)
  = ((run step (step st i).1 ins).1,
     (step st i).2 ++ (run step (step st i).1 ins).2).
Proof.
  cbn. destruct (step st i) as [st1 e1]. cbn.
  destruct (run step st1 ins) as [st2 e2]. reflexivity.
Qed.

Lemma run_app (st : closure) (a b : list I) :
  run step st (a ++ b)
  = ((run step (run step st a).1 b).1,
     (run step st a).2 ++ (run step (run step st a).1 b).2).
Proof.
  revert st. induction a as [|i a IH]; intros st.
  - cbn. destruct (run step st b). reflexivity.
  - rewrite <- app_comm_cons, !run_cons, IH. cbn. by rewrite app_assoc.
Qed.

(** A property of the state and of the effects so far that every step
    maintains holds after any run. *)
Lemma run_history (R : closure → list effect → Prop) :
  (∀ st es i, R st es → R (step st i).1 (es ++ (step st i).2)) →
  ∀ ins st es, R st es → R (run step st ins).1 (es ++ (run step st ins).2).
Proof.
  intros Hstep. induction ins as [|i ins IH]; intros st es HR.
  - cbn. by rewrite app_nil_r.
  - rewrite run_cons. cbn. rewrite app_assoc. apply IH, Hstep, HR.
Qed.

(** The same for a property of the state alone, with a condition on each
    effect produced. *)
Lemma run_invariant (P : closure → Prop) (Q : effect → Prop) :
  (∀ st i, P st → P (step st i).1 ∧ Forall Q (step st i).2) →
  ∀ ins st, P st → P (run step st ins).1 ∧ Forall Q (run step st ins).2.
Proof.
  intros Hstep. induction ins as [|i ins IH]; intros st HP.
  - cbn. split; [exact HP | constructor].
  - rewrite run_cons. cbn. destruct (Hstep st i HP) as [HP1 HQ1].
    destruct (IH _ HP1) as [HP2 HQ2]. split; [exact HP2|].
    apply Forall_app. split; assumption.
Qed.

End Run.

Lemma issued_app (cmd : string) (a b : list effect) :
  issued cmd (a ++ b) = issued cmd a || issued cmd b.
Proof. apply existsb_app. Qed.

Lemma notifications_app (a b : list effect) :
  notifications (a ++ b) = notifications a ++ notifications b.
Proof. apply List.filter_app. Qed.

(** Case analysis over the 24 states of a closure and the stimuli. *)
Ltac closure_cases st :=
  destruct st as [[] [[]|] [] []].
Ltac stimulus_cases i :=
  let c := fresh "c" in
  destruct i as [ | | ? | ? | ? | c]; [ | | | | | try destruct c].
Ltac step_cases st i := closure_cases st; stimulus_cases i.

(** Case analysis over the ways the [try] and [catch] blocks of [pullImage]
    can go. *)
Ltac settle_cases :=
  unfold tryBlock, catchBlock;
  repeat match goal with
    | |- context [success ?r] => destruct (success r)
    | |- context [match ?c with Returns => _ | Throws _ => _ end] =>
        destruct c as [|[?|]]
    | |- context [match ?e with Some _ => _ | None => _ end] => destruct e
    end.

(** *** Sessions whose start command is guarded by [active] *)

#[local] Ltac guarded_start :=
  constructor; intros;
  try match goal with i : stimulus _ |- _ => stimulus_cases i end;
  match goal with st : closure |- _ => closure_cases st end;
  cbn in *; settle_cases; cbn in *;
  first [ congruence | by split_and! ].

#[export] Instance startLogs_guarded id options sessionId :
  GuardedStart (startLogs_step id options sessionId) Cancel "start_logs".
Proof. guarded_start. Qed.

#[export] Instance startExec_guarded sessionId containerId :
  GuardedStart (startExec_step sessionId containerId) Dispose "start_exec".
Proof. guarded_start. Qed.

#[export] Instance pullImage_guarded imageName onEnd onError sessionId :
  GuardedStart (pullImage_step imageName onEnd onError sessionId) Cancel "pull_image".
Proof. guarded_start. Qed.

Section CancelBeforeAttach.

Context {C : Type} (step : closure → stimulus C → closure * list effect).
Context (cancel : C) (start_cmd : string).
Context `{!GuardedStart step cancel start_cmd}.

(** While [setup] awaits [listen], the start command has not been issued. *)
Lemma not_issued_while_waiting (ins : list (stimulus C)) :
  setup (run step started ins).1 = AwaitListen →
  issued start_cmd (run step started ins).2 = false.
Proof.
  intros Hw.
  refine (run_history step
            (λ st es, setup st = AwaitListen → issued start_cmd es = false)
            _ ins started [] _ Hw).
  - intros st es i HR Hw'. destruct (waiting_step st i Hw') as [Hst He].
    by rewrite issued_app, (HR Hst), He.
  - reflexivity.
Qed.

(** Once [active] is false it stays false, and the start command is not
    issued any more. *)
Lemma inactive_run (ins : list (stimulus C)) (st : closure) :
  active st = false →
  active (run step st ins).1 = false
  ∧ issued start_cmd (run step st ins).2 = false.
Proof.
  revert st. induction ins as [|i ins IH]; intros st Ha; [by split|].
  rewrite run_cons. cbn [fst snd]. destruct (inactive_step st i Ha) as [Ha1 He1].
  destruct (IH _ Ha1) as [Ha2 He2]. split; [exact Ha2|].
  by rewrite issued_app, He1, He2.
Qed.

Lemma waiting_run (ins : list (stimulus C)) (st : closure) :
  active st = false → setup st = AwaitListen →
  ListenResolves ∉ ins → ListenRejects ∉ ins →
  active (run step st ins).1 = false
  ∧ setup (run step st ins).1 = AwaitListen.
Proof.
  revert st. induction ins as [|i ins IH]; intros st Ha Hw Hres Hrej; [by split|].
  apply not_elem_of_cons in Hres as [Hi1 Hres].
  apply not_elem_of_cons in Hrej as [Hi2 Hrej].
  rewrite run_cons. cbn [fst snd]. apply IH; try assumption.
  - apply (inactive_step st i Ha).
  - apply still_waiting_step; [assumption | congruence | congruence].
Qed.

Lemma closed_run (ins : list (stimulus C)) (st : closure) :
  active st = false → setup st = Finished → subscribed st = false →
  subscribed (run step st ins).1 = false.
Proof.
  revert st. induction ins as [|i ins IH]; intros st Ha Hf Hs; [exact Hs|].
  rewrite run_cons. cbn [fst snd]. destruct (closed_step st i Ha Hf Hs) as [Hf1 Hs1].
  apply IH; [apply (inactive_step st i Ha) | exact Hf1 | exact Hs1].
Qed.

Lemma settled_run (ins : list (stimulus C)) (st : closure) :
  active st = false → setup st = AwaitListen →
  ListenResolves ∈ ins ∨ ListenRejects ∈ ins →
  subscribed (run step st ins).1 = false.
Proof.
  revert st. induction ins as [|i ins IH]; intros st Ha Hw Hin.
  { destruct Hin as [Hin|Hin]; by apply elem_of_nil in Hin. }
  rewrite run_cons. cbn [fst snd].
  assert (Ha1 : active (step st i).1 = false) by apply (inactive_step st i Ha).
  destruct i as [ | | p | r | e | c].
  - destruct (late_attach_step st Ha Hw) as (_ & Hs & Hf). by apply closed_run.
  - destruct (failed_attach_step st Hw) as (Hs & Hf). by apply closed_run.
  - apply IH; [exact Ha1 | by apply still_waiting_step |].
    destruct Hin as [Hin|Hin]; apply elem_of_cons in Hin as [|Hin]; try discriminate; auto.
  - apply IH; [exact Ha1 | by apply still_waiting_step |].
    destruct Hin as [Hin|Hin]; apply elem_of_cons in Hin as [|Hin]; try discriminate; auto.
  - apply IH; [exact Ha1 | by apply still_waiting_step |].
    destruct Hin as [Hin|Hin]; apply elem_of_cons in Hin as [|Hin]; try discriminate; auto.
  - apply IH; [exact Ha1 | by apply still_waiting_step |].
    destruct Hin as [Hin|Hin]; apply elem_of_cons in Hin as [|Hin]; try discriminate; auto.
Qed.

Lemma guarded_start_clean : cancel_before_attach_is_clean step cancel start_cmd.
Proof.
  intros pre post Hw.
  destruct (cancel_step (run step started pre).1) as (Ha & Hs & He).
  rewrite Hw in Hs.
  split_and!.
  - rewrite run_app. cbn [snd]. rewrite issued_app, run_cons. cbn [fst snd].
    rewrite issued_app, (not_issued_while_waiting pre Hw), He.
    by destruct (inactive_run post _ Ha) as [_ ->].
  - intros post1 Hres Hrej. cbn zeta.
    rewrite run_app. cbn [fst]. rewrite run_cons. cbn [fst].
    destruct (waiting_run post1 _ Ha Hs Hres Hrej) as [Ha' Hw'].
    destruct (late_attach_step _ Ha' Hw') as (Hu & Hsub & _). by split.
  - intros Hin. rewrite run_app. cbn [fst]. rewrite run_cons. cbn [fst].
    by apply settled_run.
Qed.

End CancelBeforeAttach.

(** C10. For [startLogs], [startExec] and [pullImage] alike: when the
    returned cancel (or dispose) function is called while [setup] still
    awaits [listen], the start command ([start_logs], [start_exec],
    [pull_image]) is never issued, the listener is removed in the very step
    in which [listen] resolves, and no subscription is left once [listen]
    has settled. *)
Theorem cancel_before_attach_leaves_nothing :
  (∀ id options sessionId,
      cancel_before_attach_is_clean
        (startLogs_step id options sessionId) Cancel "start_logs")
  ∧ (∀ sessionId containerId,
      cancel_before_attach_is_clean
        (startExec_step sessionId containerId) Dispose "start_exec")
  ∧ (∀ imageName onEnd onError sessionId,
      cancel_before_attach_is_clean
        (pullImage_step imageName onEnd onError sessionId) Cancel "pull_image").
Proof.
  split_and!; intros; apply guarded_start_clean; apply _.
Qed.

(** A log session cancelled at once, whose [listen] resolves afterwards:
    [start_logs] is never issued and the listener is gone. *)
Lemma cancel_before_attach_leaves_nothing_witness :
  issued "start_logs"
    (run (startLogs_step "web" None "k3x9ab") started
       ([] ++ Call Cancel :: [ListenResolves; Emit "late line"])).2 = false
  ∧ subscribed
      (run (startLogs_step "web" None "k3x9ab") started
         ([] ++ Call Cancel :: [ListenResolves; Emit "late line"])).1 = false.
Proof.
  destruct (proj1 cancel_before_attach_leaves_nothing "web" None "k3x9ab"
              [] [ListenResolves; Emit "late line"] eq_refl)
    as (Hissued & _ & Hsub).
  split; [exact Hissued|]. apply Hsub. left. apply list_elem_of_here.
Defined.

(** *** After the cancel *)

Lemma startLogs_unfold id options sessionId ins :
  startLogs id options sessionId ins
  = ((run (startLogs_step id options sessionId) started ins).1,
     Listen (eventName "logs" sessionId)
       :: (run (startLogs_step id options sessionId) started ins).2).
Proof. unfold startLogs. by destruct (run _ started ins). Qed.

Lemma startExec_unfold sessionId containerId cols rows ins :
  startExec sessionId containerId cols rows ins
  = ((run (startExec_step sessionId containerId) started ins).1,
     Listen (eventName "exec" sessionId)
       :: (run (startExec_step sessionId containerId) started ins).2).
Proof. unfold startExec. by destruct (run _ started ins). Qed.

Lemma pullImage_unfold imageName onEnd onError sessionId ins :
  pullImage imageName onEnd onError sessionId ins
  = ((run (pullImage_step imageName onEnd onError sessionId) started ins).1,
     Listen (eventName "pull" sessionId)
       :: (run (pullImage_step imageName onEnd onError sessionId) started ins).2).
Proof. unfold pullImage. by destruct (run _ started ins). Qed.





(** *** [startExec]: after [dispose] *)

Lemma startExec_inactive_silent sessionId containerId ins st :
  active st = false →
  active (run (startExec_step sessionId containerId) st ins).1 = false
  ∧ Forall (λ e, delivers e = false ∧ invokes "exec_input" e = false)
      (run (startExec_step sessionId containerId) st ins).2.
Proof.
  apply (run_invariant _ (λ st, active st = false)
           (λ e, delivers e = false ∧ invokes "exec_input" e = false)).
  clear. intros st i Ha. step_cases st i; cbn in *;
    try discriminate Ha; split; try reflexivity; repeat constructor.
Qed.

(** C9. Split an exec session at a call of [dispose]: from the dispose on,
    every [write] is a no-op, [exec_input] is never sent, and nothing is
    handed to [onData]. *)
Theorem dispose_silences_exec (sessionId containerId : string) (cols rows : Js.number)
    (pre post : list (stimulus exec_call)) :
  let step := startExec_step sessionId containerId in
  let st := (startExec sessionId containerId cols rows pre).1 in
  (startExec sessionId containerId cols rows (pre ++ Call Dispose :: post)).2
  = (startExec sessionId containerId cols rows pre).2
    ++ (run step st (Call Dispose :: post)).2
  ∧ Forall (λ e, (∀ d, e ≠ OnData d) ∧ (∀ args, e ≠ Invoke "exec_input" args))
      (run step st (Call Dispose :: post)).2
  ∧ (∀ data, let st' := (run step st (Call Dispose :: post)).1 in
       step st' (Call (Write data)) = (st', [])).
Proof.
  cbn zeta. rewrite !startExec_unfold. cbn [fst snd].
  set (step := startExec_step sessionId containerId).
  set (st := (run step started pre).1).
  assert (Ha : active (step st (Call Dispose)).1 = false).
  { subst step. by closure_cases st. }
  split_and!.
  - by rewrite run_app.
  - rewrite run_cons. cbn [snd]. apply Forall_app. split.
    + subst step. closure_cases st; cbn; repeat constructor; discriminate.
    + destruct (startExec_inactive_silent sessionId containerId post _ Ha) as [_ Hq].
      eapply Forall_impl; [exact Hq|]. intros e [He1 He2].
      split; [intros d -> | intros args ->]; discriminate.
  - intros data. rewrite run_cons. cbn [fst].
    destruct (startExec_inactive_silent sessionId containerId post _ Ha) as [Ha' _].
    subst step. revert Ha'.
    generalize (run (startExec_step sessionId containerId)
                  (startExec_step sessionId containerId st (Call Dispose)).1 post).1.
    intros st' Ha'. cbn. by rewrite Ha'.
Qed.

(** An attached exec session, disposed of: the keystroke and the output
    that come afterwards go nowhere. *)
Lemma dispose_silences_exec_witness :
  Forall (λ e, (∀ d, e ≠ OnData d) ∧ (∀ args, e ≠ Invoke "exec_input" args))
    (run (startExec_step "web-1" "web")
       (startExec "web-1" "web" 80 24
          [ListenResolves; Call (Write "ls"); Emit "bin etc"]).1
       (Call Dispose :: [Call (Write "pwd"); Emit "/root"])).2.
Proof.
  apply (proj1 (proj2 (dispose_silences_exec "web-1" "web" 80 24
                         [ListenResolves; Call (Write "ls"); Emit "bin etc"]
                         [Call (Write "pwd"); Emit "/root"]))).
Defined.

(** C5 is not met by the code: a [resize] on the exec handle changes nothing
    and sends nothing, whatever the state of the session, so a run with
    [resize] calls has the effects of the run without them; the initial
    [cols] and [rows] are dropped as well. *)
Theorem exec_resize_is_dropped (sessionId containerId : string) :
  (∀ st w h,
      startExec_step sessionId containerId st (Call (Resize w h)) = (st, []))
  ∧ (∀ cols rows pre w h post,
      startExec sessionId containerId cols rows (pre ++ Call (Resize w h) :: post)
      = startExec sessionId containerId cols rows (pre ++ post))
  ∧ (∀ cols rows cols' rows' ins,
      startExec sessionId containerId cols rows ins
      = startExec sessionId containerId cols' rows' ins)
  ∧ (startExec sessionId containerId 80 24
       [ListenResolves; InvokeResolves {| success := true; error := None |};
        Call (Resize 120 40)]).2
    = [Listen (eventName "exec" sessionId);
       Invoke "start_exec"
         [("sessionId", Str sessionId); ("containerId", Str containerId)]].
Proof.
  split_and!; try reflexivity.
  intros cols rows pre w h post. rewrite !startExec_unfold, !run_app, run_cons.
  reflexivity.
Qed.

(** *** [pullImage]: the terminal notification *)

(** The [try] and [catch] blocks make terminal notifications only. *)
Lemma notifications_tryBlock onEnd onError res :
  notifications (tryBlock onEnd onError res ++ [Unlisten]) = tryBlock onEnd onError res.
Proof. by settle_cases. Qed.

Lemma notifications_catchBlock e :
  notifications (catchBlock e ++ [Unlisten]) = catchBlock e.
Proof. by destruct e. Qed.

(** With callbacks that return, the [try] block makes one notification. *)
Lemma tryBlock_returning onEnd onError res :
  (∀ res, onEnd res = Returns) → (∀ err, onError err = Returns) →
  tryBlock onEnd onError res
  = [if success res then OnEnd res else OnError (errorOrUnknown res)].
Proof. intros Hend Herr. unfold tryBlock. rewrite Hend, Herr. by destruct (success res). Qed.

(** What the notifications so far and the suspension point of [setup] have
    to do with each other. *)
Lemma pullImage_history (imageName : string)
    (onEnd : reply → completion) (onError : string → completion)
    (sessionId : string) (ins : list (stimulus cancel_call)) :
  let st := (run (pullImage_step imageName onEnd onError sessionId) started ins).1 in
  let es := (run (pullImage_step imageName onEnd onError sessionId) started ins).2 in
  match setup st with
  | AwaitListen => notifications es = [] ∧ issued "pull_image" es = false
  | AwaitInvoke => notifications es = [] ∧ issued "pull_image" es = true
  | Finished =>
      (issued "pull_image" es = false → notifications es = [])
      ∧ length (notifications es) ≤ 2
      ∧ ((∀ res, onEnd res = Returns) → (∀ err, onError err = Returns) →
         length (notifications es) ≤ 1)
  end.
Proof.
  refine (run_history (pullImage_step imageName onEnd onError sessionId)
            (λ st es,
               match setup st with
               | AwaitListen => notifications es = [] ∧ issued "pull_image" es = false
               | AwaitInvoke => notifications es = [] ∧ issued "pull_image" es = true
               | Finished =>
                   (issued "pull_image" es = false → notifications es = [])
                   ∧ length (notifications es) ≤ 2
                   ∧ ((∀ res, onEnd res = Returns) → (∀ err, onError err = Returns) →
                      length (notifications es) ≤ 1)
               end) _ ins started [] _); [|by split].
  intros st es i. rewrite notifications_app, issued_app.
  step_cases st i; cbn [pullImage_step setup suspend_at unsubscribe deactivate
                          assign_unlisten active unlisten subscribed fst snd andb];
    rewrite ?notifications_tryBlock, ?notifications_catchBlock;
    cbn [notifications issued List.filter existsb terminal invokes String.eqb
           Ascii.eqb Bool.eqb app];
    rewrite ?app_nil_r, ?orb_false_r;
    try (intros [-> ->]); try done;
    try (split_and!; [done | | ]).
  all: cbn [app];
    match goal with
         | |- length [] ≤ 2 => cbn; lia
         | |- _ → _ → length [] ≤ 1 => intros _ _; cbn; lia
         | |- length (tryBlock _ _ _) ≤ 2 => settle_cases; cbn; lia
         | |- length (catchBlock ?e) ≤ 2 => destruct e; cbn; lia
         | |- _ → _ → length (tryBlock _ _ _) ≤ 1 =>
             intros Hend Herr; rewrite tryBlock_returning by done; cbn; lia
         | |- _ → _ → length (catchBlock ?e) ≤ 1 => intros _ _; destruct e; cbn; lia
         end.
Qed.






(** The two conditions of the amended C4 cannot be dropped. When [onEnd]
    throws, the [catch] block calls [onError] as well; when the [pull_image]
    call is rejected with a reason that has no string form, [e.toString()]
    throws and neither callback is called. *)
Lemma pull_outcome_needs_its_conditions :
  notifications
    (pullImage "nginx:latest" (λ _, Throws (Some "TypeError: x is undefined"))
       returning "k3x9ab"
       [ListenResolves; InvokeResolves {| success := true; error := None |}]).2
  = [OnEnd {| success := true; error := None |};
     OnError "TypeError: x is undefined"]
  ∧ notifications
      (pullImage "nginx:latest" returning returning "k3x9ab"
         [ListenResolves; InvokeRejects None]).2
    = [].
Proof. split; reflexivity. Qed.



(** * Further properties *)

(** ** Sessions: forwarding, start and stop commands, subscriptions *)

Import Trace.

(** While [active] is false, [startLogs] hands nothing to [onData]. *)
Lemma startLogs_inactive_silent id options sessionId ins st :
  active st = false →
  active (run (startLogs_step id options sessionId) st ins).1 = false
  ∧ Forall (λ e, delivers e = false)
      (run (startLogs_step id options sessionId) st ins).2.
Proof.
  apply (run_invariant _ (λ st, active st = false) (λ e, delivers e = false)).
  clear. intros st i Ha. step_cases st i; cbn in *;
    try discriminate Ha; split; try reflexivity; repeat constructor.
Qed.

(** X1. Split a log session at a call of the cancel function: from the
    cancel on nothing is handed to [onData], and the cancel call sends
    [stop_logs] for the session. *)
Theorem logs_cancel_stops_data (id : string) (options : option (option bool))
    (sessionId : string) (pre post : list (stimulus cancel_call)) :
  let step := startLogs_step id options sessionId in
  let st := (startLogs id options sessionId pre).1 in
  (startLogs id options sessionId (pre ++ Call Cancel :: post)).2
  = (startLogs id options sessionId pre).2 ++ (run step st (Call Cancel :: post)).2
  ∧ Forall (λ e, ∀ d, e ≠ OnData d) (run step st (Call Cancel :: post)).2
  ∧ Invoke "stop_logs" [("sessionId", Str sessionId)] ∈ (step st (Call Cancel)).2.
Proof.
  cbn zeta. rewrite !startLogs_unfold. cbn [fst snd].
  set (step := startLogs_step id options sessionId).
  set (st := (run step started pre).1).
  assert (Ha : active (step st (Call Cancel)).1 = false).
  { subst step. by closure_cases st. }
  split_and!.
  - by rewrite run_app.
  - rewrite run_cons. cbn [snd]. apply Forall_app. split.
    + subst step. closure_cases st; cbn; repeat constructor; discriminate.
    + destruct (startLogs_inactive_silent id options sessionId post _ Ha) as [_ Hq].
      eapply Forall_impl; [exact Hq|]. intros e He d ->. discriminate He.
  - subst step. closure_cases st; cbn; repeat constructor.
Qed.

(** A log session that is attached, streams, and is then cancelled. *)
Lemma logs_cancel_stops_data_witness :
  Forall (λ e, ∀ d, e ≠ OnData d)
    (run (startLogs_step "web" (Some (Some true)) "k3x9ab")
       (startLogs "web" (Some (Some true)) "k3x9ab"
          [ListenResolves; Emit "line 1"]).1
       (Call Cancel :: [Emit "line 2"; Emit "line 3"])).2.
Proof.
  apply (proj1 (proj2 (logs_cancel_stops_data "web" (Some (Some true)) "k3x9ab"
                         [ListenResolves; Emit "line 1"]
                         [Emit "line 2"; Emit "line 3"]))).
Defined.

(** *** The start command is sent at most once *)

Section StartOnce.

Context {C : Type} (step : closure → stimulus C → closure * list effect).
Context (start_cmd : string).

Hypothesis start_only_on_attach : ∀ st i,
  match setup st with
  | AwaitListen =>
      length (List.filter (invokes start_cmd) (step st i).2) ≤ 1
      ∧ (setup (step st i).1 = AwaitListen →
         List.filter (invokes start_cmd) (step st i).2 = [])
  | _ =>
      setup (step st i).1 ≠ AwaitListen
      ∧ List.filter (invokes start_cmd) (step st i).2 = []
  end.

Lemma start_at_most_once (ins : list (stimulus C)) :
  length (List.filter (invokes start_cmd) (run step started ins).2) ≤ 1.
Proof.
  enough (H : match setup (run step started ins).1 with
              | AwaitListen =>
                  List.filter (invokes start_cmd) ([] ++ (run step started ins).2) = []
              | _ => length (List.filter (invokes start_cmd)
                               ([] ++ (run step started ins).2)) ≤ 1
              end).
  { cbn [app] in H. destruct (setup _); [rewrite H; cbn; lia | exact H | exact H]. }
  apply (run_history step
           (λ st es, match setup st with
                     | AwaitListen => List.filter (invokes start_cmd) es = []
                     | _ => length (List.filter (invokes start_cmd) es) ≤ 1
                     end)); [|reflexivity].
  intros st es i HR. rewrite List.filter_app.
  pose proof (start_only_on_attach st i) as Hs.
  destruct (setup st) eqn:Hst.
  - destruct Hs as [Hle Hnone]. rewrite HR. cbn [app].
    destruct (setup (step st i).1); [by apply Hnone | exact Hle | exact Hle].
  - destruct Hs as [Hne Hnone]. rewrite Hnone, app_nil_r.
    destruct (setup (step st i).1); [done | exact HR | exact HR].
  - destruct Hs as [Hne Hnone]. rewrite Hnone, app_nil_r.
    destruct (setup (step st i).1); [done | exact HR | exact HR].
Qed.

End StartOnce.

#[local] Ltac start_once :=
  intros st i; step_cases st i; cbn;
  settle_cases;
  cbn; split; first [ done | lia | discriminate ].

(** X2. Whatever happens to a session, its backend start command
    ([start_logs], [start_exec], [pull_image]) is sent at most once. *)
Theorem start_command_at_most_once :
  (∀ id options sessionId ins,
      length (List.filter (invokes "start_logs")
                (startLogs id options sessionId ins).2) ≤ 1)
  ∧ (∀ sessionId containerId cols rows ins,
      length (List.filter (invokes "start_exec")
                (startExec sessionId containerId cols rows ins).2) ≤ 1)
  ∧ (∀ imageName onEnd onError sessionId ins,
      length (List.filter (invokes "pull_image")
                (pullImage imageName onEnd onError sessionId ins).2) ≤ 1).
Proof.
  split_and!; intros.
  - rewrite startLogs_unfold. cbn [snd List.filter invokes].
    apply start_at_most_once. start_once.
  - rewrite startExec_unfold. cbn [snd List.filter invokes].
    apply start_at_most_once. start_once.
  - rewrite pullImage_unfold. cbn [snd List.filter invokes].
    apply start_at_most_once. start_once.
Qed.

(** *** A run observed through a filter on its effects *)

Section RunObserved.

Context {I : Type} (step : closure → I → closure * list effect).
Context (P : closure → Prop) (allowed : I → Prop).
Context (f : effect → bool) (g : I → list effect).

Hypothesis observed_step : ∀ st i, P st → allowed i →
  P (step st i).1 ∧ List.filter f (step st i).2 = g i.

Lemma run_observed (ins : list I) (st : closure) :
  P st → Forall allowed ins →
  P (run step st ins).1
  ∧ List.filter f (run step st ins).2 = concat (g <$> ins).
Proof.
  revert st. induction ins as [|i ins IH]; intros st HP Hall; [by split|].
  apply Forall_cons in Hall as [Hi Hall].
  destruct (observed_step st i HP Hi) as [HP1 Hf1].
  destruct (IH _ HP1 Hall) as [HP2 Hf2].
  rewrite run_cons. cbn [fst snd]. split; [exact HP2|].
  by rewrite List.filter_app, Hf1, Hf2.
Qed.

End RunObserved.

Lemma emitted_concat {C : Type} (k : string → effect) (ins : list (stimulus C)) :
  concat ((λ i, match i with Emit p => [k p] | _ => [] end) <$> ins)
  = k <$> emitted ins.
Proof.
  induction ins as [|i ins IH]; [reflexivity|].
  cbn. rewrite IH. by destruct i.
Qed.

(** X3. While a log or exec session has not been cancelled and [listen] has
    not failed, every payload that reaches its listener is handed to
    [onData] exactly once and in arrival order; the same holds for the
    progress records of a pull until [pull_image] settles. *)
Theorem payloads_forwarded_in_order :
  (∀ id options sessionId ins,
      Forall (λ i, is_cancel i = false ∧ i ≠ ListenRejects) ins →
      List.filter delivers (startLogs id options sessionId ins).2
      = OnData <$> emitted ins)
  ∧ (∀ sessionId containerId cols rows ins,
      Forall (λ i, is_dispose i = false ∧ i ≠ ListenRejects) ins →
      List.filter delivers (startExec sessionId containerId cols rows ins).2
      = OnData <$> emitted ins)
  ∧ (∀ imageName onEnd onError sessionId ins,
      Forall (λ i, is_cancel i = false ∧ i ≠ ListenRejects
                   ∧ (∀ res, i ≠ InvokeResolves res)
                   ∧ (∀ e, i ≠ InvokeRejects e)) ins →
      List.filter delivers (pullImage imageName onEnd onError sessionId ins).2
      = OnProgress <$> emitted ins).
Proof.
  split_and!; intros.
  - rewrite startLogs_unfold. cbn [snd List.filter delivers].
    rewrite <- emitted_concat.
    refine (proj2 (run_observed _ (λ st, active st = true ∧ subscribed st = true)
                     _ delivers _ _ ins started _ _)); [|by split|eassumption].
    clear. intros st i [Ha Hs] [Hc Hr].
    step_cases st i; cbn in *; try discriminate; try congruence; by split.
  - rewrite startExec_unfold. cbn [snd List.filter delivers].
    rewrite <- emitted_concat.
    refine (proj2 (run_observed _ (λ st, active st = true ∧ subscribed st = true)
                     _ delivers _ _ ins started _ _)); [|by split|eassumption].
    clear. intros st i [Ha Hs] [Hc Hr].
    step_cases st i; cbn in *; try discriminate; try congruence; by split.
  - rewrite pullImage_unfold. cbn [snd List.filter delivers].
    rewrite <- emitted_concat.
    refine (proj2 (run_observed _ (λ st, active st = true ∧ subscribed st = true)
                     _ delivers _ _ ins started _ _)); [|by split|eassumption].
    clear. intros st i [Ha Hs] (Hc & Hr & Hres & Hrej).
    step_cases st i; cbn in *; try discriminate; try congruence;
      try (by split); first [ by destruct (Hres _) | by destruct (Hrej _) ].
Qed.

(** A log session that is attached and receives three lines. *)
Lemma payloads_forwarded_in_order_witness :
  List.filter delivers
    (startLogs "web" (Some (Some true)) "k3x9ab"
       [ListenResolves; Emit "line 1";
        InvokeResolves {| success := true; error := None |};
        Emit "line 2"; Emit "line 3"]).2
  = [OnData "line 1"; OnData "line 2"; OnData "line 3"].
Proof.
  apply (proj1 payloads_forwarded_in_order "web" (Some (Some true)) "k3x9ab"
           [ListenResolves; Emit "line 1";
            InvokeResolves {| success := true; error := None |};
            Emit "line 2"; Emit "line 3"]).
  repeat constructor; discriminate.
Defined.

(** X4. Before [dispose], every [write] on an exec handle sends exactly one
    [exec_input] carrying the session id and the data unchanged, in call
    order, whether or not the session is attached yet; nothing else sends
    [exec_input]. *)
Theorem exec_writes_sent_in_order (sessionId containerId : string)
    (cols rows : Js.number) (ins : list (stimulus exec_call)) :
  Forall (λ i, is_dispose i = false) ins →
  List.filter (invokes "exec_input")
    (startExec sessionId containerId cols rows ins).2
  = (λ data, Invoke "exec_input" [("sessionId", Str sessionId); ("data", Str data)])
    <$> written ins.
Proof.
  intros Hall. rewrite startExec_unfold. cbn [snd List.filter invokes String.eqb].
  assert (Hc : ∀ l : list (stimulus exec_call),
    concat ((λ i, match i with
                  | Call (Write data) =>
                      [Invoke "exec_input"
                         [("sessionId", Str sessionId); ("data", Str data)]]
                  | _ => []
                  end) <$> l)
    = (λ data, Invoke "exec_input"
                 [("sessionId", Str sessionId); ("data", Str data)])
      <$> written l).
  { induction l as [|i l IH]; [reflexivity|]. cbn. rewrite IH.
    destruct i as [| | | | |[]]; reflexivity. }
  rewrite <- Hc.
  refine (proj2 (run_observed _ (λ st, active st = true) _ _ _ _ ins started _ _));
    [|reflexivity|exact Hall].
  clear. intros st i Ha Hd.
  step_cases st i; cbn in *; try discriminate; by split.
Qed.

(** Keystrokes typed before the session is attached are sent all the same. *)
Lemma exec_writes_sent_in_order_witness :
  List.filter (invokes "exec_input")
    (startExec "web-1" "web" 80 24
       [Call (Write "l"); ListenResolves; Call (Write "s"); Emit "bin"]).2
  = [Invoke "exec_input" [("sessionId", Str "web-1"); ("data", Str "l")];
     Invoke "exec_input" [("sessionId", Str "web-1"); ("data", Str "s")]].
Proof.
  apply (exec_writes_sent_in_order "web-1" "web" 80 24
           [Call (Write "l"); ListenResolves; Call (Write "s"); Emit "bin"]).
  repeat constructor.
Defined.

(** X5. The stop command is sent once for every call of the cancel function
    (or of [dispose]), also when the session was never started or is over
    already, and by nothing else. *)
Theorem stop_sent_per_cancel_call :
  (∀ id options sessionId ins,
      List.filter (invokes "stop_logs") (startLogs id options sessionId ins).2
      = replicate (length (List.filter is_cancel ins))
          (Invoke "stop_logs" [("sessionId", Str sessionId)]))
  ∧ (∀ sessionId containerId cols rows ins,
      List.filter (invokes "stop_exec")
        (startExec sessionId containerId cols rows ins).2
      = replicate (length (List.filter is_dispose ins))
          (Invoke "stop_exec" [("sessionId", Str sessionId)]))
  ∧ (∀ imageName onEnd onError sessionId ins,
      List.filter (invokes "stop_pull") (pullImage imageName onEnd onError sessionId ins).2
      = replicate (length (List.filter is_cancel ins))
          (Invoke "stop_pull" [("sessionId", Str sessionId)])).
Proof.
  assert (Hrep : ∀ {I} (p : I → bool) (x : effect) (l : list I),
    concat ((λ i, if p i then [x] else []) <$> l)
    = replicate (length (List.filter p l)) x).
  { intros I p x. induction l as [|i l IH]; [reflexivity|].
    cbn. rewrite IH. by destruct (p i). }
  split_and!; intros.
  - rewrite startLogs_unfold. cbn [snd List.filter invokes String.eqb].
    rewrite <- Hrep.
    refine (proj2 (run_observed _ (λ _, True) (λ _, True) _ _ _ ins started I _)).
    + clear. intros st i _ _. step_cases st i; cbn; by split.
    + by apply Forall_true.
  - rewrite startExec_unfold. cbn [snd List.filter invokes String.eqb].
    rewrite <- Hrep.
    refine (proj2 (run_observed _ (λ _, True) (λ _, True) _ _ _ ins started I _)).
    + clear. intros st i _ _. step_cases st i; cbn; by split.
    + by apply Forall_true.
  - rewrite pullImage_unfold. cbn [snd List.filter invokes String.eqb].
    rewrite <- Hrep.
    refine (proj2 (run_observed _ (λ _, True) (λ _, True) _ _ _ ins started I _)).
    + clear. intros st i _ _. step_cases st i; cbn;
        settle_cases; by split.
    + by apply Forall_true.
Qed.

(** *** Subscriptions *)

Section Release.

Context {C : Type} (step : closure → stimulus C → closure * list effect).
Context (cancel : C) (start_cmd : string).
Context `{!GuardedStart step cancel start_cmd}.

(** What holds of every reachable closure: once [setup] is past [listen],
    either [unlisten] is assigned or the listener is gone; and a cancelled
    session past [listen] has no listener. *)
Hypothesis release_step : ∀ st i,
  (setup st ≠ AwaitListen → unlisten st = Some cleanup ∨ subscribed st = false) →
  (active st = false → setup st ≠ AwaitListen → subscribed st = false) →
  (setup (step st i).1 ≠ AwaitListen →
     unlisten (step st i).1 = Some cleanup ∨ subscribed (step st i).1 = false)
  ∧ (active (step st i).1 = false → setup (step st i).1 ≠ AwaitListen →
     subscribed (step st i).1 = false).

Hypothesis settle_step : ∀ st i,
  listen_settles i = true → setup (step st i).1 ≠ AwaitListen.

Lemma released_invariant (ins : list (stimulus C)) :
  active (run step started ins).1 = false →
  setup (run step started ins).1 ≠ AwaitListen →
  subscribed (run step started ins).1 = false.
Proof.
  refine (proj2 (proj1 (run_invariant step
    (λ st, (setup st ≠ AwaitListen →
              unlisten st = Some cleanup ∨ subscribed st = false)
           ∧ (active st = false → setup st ≠ AwaitListen → subscribed st = false))
    (λ _, True) _ ins started _))).
  - intros st i [H1 H2]. split; [by apply release_step | by apply Forall_true].
  - split; intros; done.
Qed.

Lemma cancelled_run (ins : list (stimulus C)) (st : closure) :
  active st = false ∨ Call cancel ∈ ins → active (run step st ins).1 = false.
Proof.
  revert st. induction ins as [|i ins IH]; intros st H.
  - destruct H as [H|H]; [exact H | by apply elem_of_nil in H].
  - rewrite run_cons. cbn [fst]. apply IH.
    destruct H as [H|H]; [left; by apply inactive_step|].
    apply elem_of_cons in H as [<-|H]; [left; apply cancel_step | by right].
Qed.

Lemma past_listen_run (ins : list (stimulus C)) (st : closure) :
  setup st ≠ AwaitListen ∨ Exists (λ i, listen_settles i = true) ins →
  setup (run step st ins).1 ≠ AwaitListen.
Proof.
  revert st. induction ins as [|i ins IH]; intros st H.
  - destruct H as [H|H]; [exact H | by apply Exists_nil in H].
  - rewrite run_cons. cbn [fst]. apply IH.
    destruct H as [H|H].
    + left. intros Hw. by destruct (waiting_step st i Hw).
    + apply Exists_cons in H as [H|H]; [left; by apply settle_step | by right].
Qed.

Lemma cancelled_session_released (ins : list (stimulus C)) :
  Call cancel ∈ ins → Exists (λ i, listen_settles i = true) ins →
  subscribed (run step started ins).1 = false.
Proof.
  intros Hc Hs. apply released_invariant.
  - apply cancelled_run. by right.
  - apply past_listen_run. by right.
Qed.

End Release.

#[local] Ltac release_step :=
  intros st i H1 H2; step_cases st i; cbn in *;
  split; intros; first [ done | intuition congruence ].

(** X6. A session that has been cancelled (or disposed of), at whatever
    moment, holds no subscription once [listen] has settled: cancelling
    before the attach, after it, or repeatedly never leaves the listener
    registered. *)
Theorem cancelled_session_holds_no_subscription :
  (∀ id options sessionId ins,
      Call Cancel ∈ ins → Exists (λ i, listen_settles i = true) ins →
      subscribed (startLogs id options sessionId ins).1 = false)
  ∧ (∀ sessionId containerId cols rows ins,
      Call Dispose ∈ ins → Exists (λ i, listen_settles i = true) ins →
      subscribed (startExec sessionId containerId cols rows ins).1 = false)
  ∧ (∀ imageName onEnd onError sessionId ins,
      Call Cancel ∈ ins → Exists (λ i, listen_settles i = true) ins →
      subscribed (pullImage imageName onEnd onError sessionId ins).1 = false).
Proof.
  split_and!; intros.
  - rewrite startLogs_unfold. cbn [fst].
    eapply (cancelled_session_released _ Cancel "start_logs"); try eassumption.
    + release_step.
    + clear. intros st i Hi. step_cases st i; cbn in *; congruence.
  - rewrite startExec_unfold. cbn [fst].
    eapply (cancelled_session_released _ Dispose "start_exec"); try eassumption.
    + release_step.
    + clear. intros st i Hi. step_cases st i; cbn in *; congruence.
  - rewrite pullImage_unfold. cbn [fst].
    eapply (cancelled_session_released _ Cancel "pull_image"); try eassumption.
    + release_step.
    + clear. intros st i Hi. step_cases st i; cbn in *; congruence.
Qed.

(** An exec session disposed of after the attach, while [start_exec] is
    still pending. *)
Lemma cancelled_session_holds_no_subscription_witness :
  subscribed
    (startExec "web-1" "web" 80 24
       [ListenResolves; Emit "$ "; Call Dispose;
        InvokeResolves {| success := true; error := None |}]).1 = false.
Proof.
  apply (proj1 (proj2 cancelled_session_holds_no_subscription)
           "web-1" "web" 80%float 24%float).
  - apply list_elem_of_further, list_elem_of_further, list_elem_of_here.
  - apply Exists_cons_hd. reflexivity.
Defined.

(** X7. A pull holds no subscription once its [setup] has finished, whether
    it was cancelled or not, and however its callbacks end: once [listen]
    has resolved, every way out of [setup] calls [cleanup]; when [listen]
    fails there is no listener to remove. *)
Theorem finished_pull_holds_no_subscription (imageName : string)
    (onEnd : reply → completion) (onError : string → completion)
    (sessionId : string) (ins : list (stimulus cancel_call)) :
  setup (pullImage imageName onEnd onError sessionId ins).1 = Finished →
  subscribed (pullImage imageName onEnd onError sessionId ins).1 = false.
Proof.
  rewrite pullImage_unfold. cbn [fst].
  refine (proj1 (run_invariant (pullImage_step imageName onEnd onError sessionId)
    (λ st, setup st = Finished → subscribed st = false) (λ _, True)
    _ ins started _)); [|done].
  intros st i H. split; [|by apply Forall_true].
  step_cases st i; cbn in *; first [ done | intuition congruence ].
Qed.

(** A pull that fails at the registry, never cancelled. *)
Lemma finished_pull_holds_no_subscription_witness :
  subscribed
    (pullImage "nginx:nope" returning returning "k3x9ab"
       [ListenResolves; Emit "Pulling";
        InvokeResolves {| success := false; error := Some "not found" |}]).1
  = false.
Proof.
  apply (finished_pull_holds_no_subscription "nginx:nope" returning returning "k3x9ab"
           [ListenResolves; Emit "Pulling";
            InvokeResolves {| success := false; error := Some "not found" |}]).
  reflexivity.
Defined.

(** X8. A log or exec session never lets go of its listener by itself: as
    long as the cancel function ([dispose]) is not called and [listen] does
    not fail, [cleanup] is never called and the listener stays registered,
    also after the start command has settled, with success or not. *)
Theorem uncancelled_session_keeps_listener :
  (∀ id options sessionId ins,
      Forall (λ i, is_cancel i = false ∧ i ≠ ListenRejects) ins →
      subscribed (startLogs id options sessionId ins).1 = true
      ∧ List.filter unlistens (startLogs id options sessionId ins).2 = [])
  ∧ (∀ sessionId containerId cols rows ins,
      Forall (λ i, is_dispose i = false ∧ i ≠ ListenRejects) ins →
      subscribed (startExec sessionId containerId cols rows ins).1 = true
      ∧ List.filter unlistens
          (startExec sessionId containerId cols rows ins).2 = []).
Proof.
  assert (Hnil : ∀ {I} (l : list I),
            concat ((λ _, @nil effect) <$> l) = []).
  { intros I. induction l; [reflexivity | exact IHl]. }
  split; intros.
  - rewrite startLogs_unfold. cbn [fst snd List.filter unlistens].
    rewrite <- (Hnil _ ins).
    destruct (run_observed (startLogs_step id options sessionId)
                (λ st, active st = true ∧ subscribed st = true)
                (λ i, is_cancel i = false ∧ i ≠ ListenRejects)
                unlistens (λ _, [])) with (ins := ins) (st := started)
      as [[_ Hs] Hf]; try done.
    clear. intros st i [Ha Hs] [Hc Hr].
    step_cases st i; cbn in *; try discriminate; try congruence; by split.
  - rewrite startExec_unfold. cbn [fst snd List.filter unlistens].
    rewrite <- (Hnil _ ins).
    destruct (run_observed (startExec_step sessionId containerId)
                (λ st, active st = true ∧ subscribed st = true)
                (λ i, is_dispose i = false ∧ i ≠ ListenRejects)
                unlistens (λ _, [])) with (ins := ins) (st := started)
      as [[_ Hs] Hf]; try done.
    clear. intros st i [Ha Hs] [Hc Hr].
    step_cases st i; cbn in *; try discriminate; try congruence; by split.
Qed.

(** A log stream whose [start_logs] call came back with an error: the
    listener is still there. *)
Lemma uncancelled_session_keeps_listener_witness :
  subscribed
    (startLogs "gone" None "k3x9ab"
       [ListenResolves;
        InvokeResolves {| success := false; error := Some "no such container" |}]).1
  = true.
Proof.
  apply (proj1 uncancelled_session_keeps_listener "gone" None "k3x9ab"
           [ListenResolves;
            InvokeResolves {| success := false;
                              error := Some "no such container" |}]).
  repeat constructor; discriminate.
Defined.

(** ** The stats dictionary *)

Lemma buildStatsObject_snoc (toFixed2 byteSize : Js.number → string)
    (data : list BatchEntry.t) (res : BatchEntry.t) :
  buildStatsObject toFixed2 byteSize (data ++ [res])
  = storeStats toFixed2 byteSize (buildStatsObject toFixed2 byteSize data) res.
Proof. apply foldl_snoc. Qed.

(** X9. Whatever the batch result holds, duplicates included, the object
    built from it has as own keys exactly the identifiers of the result
    other than ["__proto__"], and the value under such an identifier comes
    from the last entry carrying it. Entries whose identifier is
    ["__proto__"] add no key: the last of them becomes the prototype of the
    object. When no identifier is ["__proto__"], the own properties are the
    dictionary [buildStatsMap] gives and the prototype is untouched. *)
Theorem statsMap_last_entry_wins (toFixed2 byteSize : Js.number → string)
    (data : list BatchEntry.t) (i : string) :
  let statsMap := buildStatsObject toFixed2 byteSize data in
  (i ∈ dom (StatsObject.own statsMap)
   ↔ i ≠ "__proto__" ∧ i ∈ BatchEntry.id <$> data)
  ∧ (i ≠ "__proto__" →
     StatsObject.own statsMap !! i
     = entryStats toFixed2 byteSize
         <$> last (filter (λ res, BatchEntry.id res = i) data))
  ∧ StatsObject.proto statsMap
    = entryStats toFixed2 byteSize
        <$> last (filter (λ res, BatchEntry.id res = "__proto__") data)
  ∧ ("__proto__" ∉ BatchEntry.id <$> data →
     StatsObject.own statsMap = buildStatsMap toFixed2 byteSize data
     ∧ StatsObject.proto statsMap = None).
Proof.
  cbn zeta. split_and!.
  - induction data as [|res data IH] using rev_ind.
    + cbn. rewrite dom_empty_L, elem_of_empty, elem_of_nil. tauto.
    + rewrite buildStatsObject_snoc, fmap_app, elem_of_app. cbn [fmap list_fmap].
      rewrite list_elem_of_singleton. unfold storeStats.
      destruct (bool_decide_reflect (BatchEntry.id res = "__proto__")) as [Hp|Hp];
        cbn [StatsObject.own].
      * rewrite IH. split; [tauto|]. intros [Hi [Hd|He]]; [tauto | congruence].
      * rewrite dom_insert_L, elem_of_union, elem_of_singleton, IH.
        split; [intros [->|[? ?]]; tauto | tauto].
  - intros Hi. induction data as [|res data IH] using rev_ind; [reflexivity|].
    rewrite buildStatsObject_snoc, filter_app, filter_cons, filter_nil.
    unfold storeStats.
    destruct (bool_decide_reflect (BatchEntry.id res = "__proto__")) as [Hp|Hp];
      cbn [StatsObject.own].
    + rewrite decide_False by congruence. by rewrite app_nil_r.
    + destruct (decide (BatchEntry.id res = i)) as [<-|Hne].
      * by rewrite lookup_insert_eq, last_snoc.
      * rewrite lookup_insert_ne by exact Hne. by rewrite app_nil_r.
  - induction data as [|res data IH] using rev_ind; [reflexivity|].
    rewrite buildStatsObject_snoc, filter_app, filter_cons, filter_nil.
    unfold storeStats.
    destruct (bool_decide_reflect (BatchEntry.id res = "__proto__")) as [Hp|Hp];
      cbn [StatsObject.proto].
    + rewrite decide_True by exact Hp. by rewrite last_snoc.
    + rewrite decide_False by exact Hp. by rewrite app_nil_r.
  - unfold buildStatsMap.
    induction data as [|res data IH] using rev_ind; [done|].
    rewrite fmap_app, not_elem_of_app. cbn [fmap list_fmap].
    rewrite list_elem_of_singleton. intros [Hd Hp].
    rewrite buildStatsObject_snoc, foldl_snoc. unfold storeStats.
    rewrite bool_decide_eq_false_2 by congruence.
    cbn [StatsObject.own StatsObject.proto].
    destruct (IH Hd) as [-> ->]. done.
Qed.

(** Two samples for the container [web] and one entry that calls itself
    ["__proto__"]: one key, with the later sample of [web]. *)
Lemma statsMap_last_entry_wins_witness :
  StatsObject.own
    (buildStatsObject (λ _, "0.00") (λ _, "0 B")
       [statsEntry fixture_stats "web"; statsEntry fixture_stats "__proto__";
        statsEntry fixture_stats "web"])
  !! "web"
  = Some (entryStats (λ _, "0.00") (λ _, "0 B") (statsEntry fixture_stats "web")).
Proof.
  apply (proj1 (proj2 (statsMap_last_entry_wins (λ _, "0.00") (λ _, "0 B")
                         [statsEntry fixture_stats "web";
                          statsEntry fixture_stats "__proto__";
                          statsEntry fixture_stats "web"] "web"))).
  discriminate.
Defined.

(** ** The list hooks *)

Import ListHook.

Lemma poll_snoc {A : Type} (st : state A) (os : list (settled A)) (o : settled A) :
  poll st (os ++ [o]) = fetch (poll st os) o.
Proof. apply foldl_snoc. Qed.

Lemma poll_app {A : Type} (st : state A) (os os' : list (settled A)) :
  poll st (os ++ os') = poll (poll st os) os'.
Proof. apply foldl_app. Qed.

Lemma fetch_loading {A : Type} (st : state A) (o : settled A) :
  loading (fetch st o) = false.
Proof.
  destruct o as [r|m|]; cbn; [|reflexivity..].
  by destruct (ApiResult.success r), (ApiResult.data r).
Qed.

Lemma poll_loading {A : Type} (st : state A) (os : list (settled A)) :
  os ≠ [] → loading (poll st os) = false.
Proof.
  destruct os as [|o os _] using rev_ind; [done|].
  intros _. rewrite poll_snoc. apply fetch_loading.
Qed.

Lemma fetch_loaded {A : Type} (st : state A) (result : ApiResult.t (list A))
    (data : list A) :
  ApiResult.success result = true → ApiResult.data result = Some data →
  fetch st (Resolved result)
  = {| items := data; loading := false; error := error st |}.
Proof. intros Hs Hd. cbn. by rewrite Hs, Hd. Qed.

Lemma fetch_not_loaded {A : Type} (st : state A) (o : settled A) :
  loaded o = false → items (fetch st o) = items st.
Proof.
  destruct o as [r|m|]; cbn; [|reflexivity..].
  by destruct (ApiResult.success r), (ApiResult.data r).
Qed.

Lemma poll_not_loaded {A : Type} (st : state A) (os : list (settled A)) :
  Forall (λ o, loaded o = false) os → items (poll st os) = items st.
Proof.
  induction os as [|o os IH] using rev_ind; intros Hall; [reflexivity|].
  apply Forall_app in Hall as [Hall Ho]. rewrite Forall_singleton in Ho.
  rewrite poll_snoc, fetch_not_loaded by exact Ho. by apply IH.
Qed.

(** X10. The list shown by a list hook is the one of the last refresh that
    succeeded with data: refreshes that fail afterwards (an envelope with
    [success = false] or without [data], or a rejected call) leave it in
    place, and [loading] is false from the first settled refresh on. *)
Theorem list_hook_keeps_last_good_list {A : Type} (st : state A)
    (pre post : list (settled A)) (result : ApiResult.t (list A)) (data : list A) :
  ApiResult.success result = true → ApiResult.data result = Some data →
  Forall (λ o, loaded o = false) post →
  items (poll st (pre ++ Resolved result :: post)) = data
  ∧ loading (poll st (pre ++ Resolved result :: post)) = false
  ∧ items (poll st post) = items st.
Proof.
  intros Hs Hd Hpost. split_and!.
  - change (Resolved result :: post) with ([Resolved result] ++ post).
    rewrite !poll_app, (poll_not_loaded _ post Hpost).
    change (poll ?s [Resolved result]) with (fetch s (Resolved result)).
    by rewrite (fetch_loaded _ result data Hs Hd).
  - apply poll_loading. by destruct pre.
  - by apply poll_not_loaded.
Qed.

(** A list loaded once, then a failed and a rejected refresh. *)
Lemma list_hook_keeps_last_good_list_witness :
  items (poll initial
           ([] ++ Resolved (listing ["web"; "db"])
               :: [Resolved (failure (Some "daemon down"));
                   Rejected (Some "ipc closed")]))
  = ["web"; "db"].
Proof.
  apply (list_hook_keeps_last_good_list initial [] _
           (listing ["web"; "db"]) ["web"; "db"] eq_refl eq_refl).
  repeat constructor.
Defined.

(** X11. The error a list hook shows is the one of the last refresh that
    did not store a list. Refreshes that succeed leave [error] as it is, so
    after a refresh that resolved as a failure the error stays that
    message, which is never empty, however many refreshes succeed
    afterwards. A rejected refresh sets [error] to the [message] of the
    rejection reason, which clears it when the reason has none; a refresh
    rejected with [null] or [undefined] leaves [error] as it was. *)
Theorem list_hook_error_is_sticky {A : Type} (st : state A)
    (pre post : list (settled A)) (o : settled A) :
  loaded o = false →
  Forall (λ o, loaded o = true) post →
  error (poll st post) = error st
  ∧ error (poll st (pre ++ o :: post))
    = match o with
      | Resolved result => Some (errorOrUnknown (ApiResult.error result))
      | Rejected message => message
      | RejectedNullish => error (poll st pre)
      end
  ∧ (∀ e, errorOrUnknown e ≠ "").
Proof.
  intros Hfail Hpost.
  assert (Hkeep : ∀ st' : state A, error (poll st' post) = error st').
  { clear -Hpost. induction post as [|o post IH] using rev_ind; intros st';
      [reflexivity|].
    apply Forall_app in Hpost as [Hpost Ho]. rewrite Forall_singleton in Ho.
    rewrite poll_snoc, <- (IH Hpost st').
    destruct o as [r|m|]; [|discriminate Ho..]. cbn in Ho |- *.
    destruct (ApiResult.success r), (ApiResult.data r); try discriminate Ho.
    reflexivity. }
  split_and!.
  - apply Hkeep.
  - change (o :: post) with ([o] ++ post).
    rewrite !poll_app, Hkeep.
    change (poll ?s [o]) with (fetch s o).
    destruct o as [result|message|]; [|reflexivity..].
    cbn in Hfail |- *.
    destruct (ApiResult.success result), (ApiResult.data result);
      try reflexivity. discriminate Hfail.
  - intros e. unfold errorOrUnknown. destruct e as [[|a e]|]; done.
Qed.

(** One refresh that failed without a message, then two good ones: the
    hook still reports "Unknown error". *)
Lemma list_hook_error_is_sticky_witness :
  error (poll initial
           ([] ++ Resolved (failure None)
               :: [Resolved (listing ["web"]); Resolved (listing ["web"; "db"])]))
  = Some "Unknown error".
Proof.
  refine (proj1 (proj2 (list_hook_error_is_sticky initial []
                          [Resolved (listing ["web"]);
                           Resolved (listing ["web"; "db"])]
                          (Resolved (failure None)) eq_refl _))).
  repeat constructor.
Defined.

(** ** [useSortable] *)

(** X12. Asking again for the column that is already the sort key flips the
    direction, so three requests in a row amount to one; asking for any
    other column always starts ascending, whatever the direction was. *)
Theorem requestSort_toggles (sortConfig : Sortable.SortConfig) (k k' : string) :
  let once := Sortable.requestSort sortConfig k in
  let twice := Sortable.requestSort once k in
  Sortable.key once = Some k
  ∧ Sortable.direction twice ≠ Sortable.direction once
  ∧ Sortable.requestSort twice k = once
  ∧ (k' ≠ k →
     Sortable.requestSort once k'
     = {| Sortable.key := Some k'; Sortable.direction := Sortable.ascending |}
     ∧ Sortable.requestSort twice k'
       = {| Sortable.key := Some k'; Sortable.direction := Sortable.ascending |}).
Proof.
  cbn zeta. unfold Sortable.requestSort. cbn.
  rewrite (bool_decide_eq_true_2 (Some k = Some k)) by reflexivity.
  destruct (bool_decide (Sortable.key sortConfig = Some k)
            && match Sortable.direction sortConfig with
               | Sortable.ascending => true
               | Sortable.descending => false
               end); cbn;
    rewrite ?(bool_decide_eq_true_2 (Some k = Some k)) by reflexivity; cbn;
    split_and!; try done;
    intros Hne; rewrite (bool_decide_eq_false_2 (Some k = Some k')) by congruence;
    done.
Qed.

(** From the default configuration of the container table: two clicks on
    NAME, then one on IMAGE. *)
Lemma requestSort_toggles_witness :
  Sortable.requestSort
    (Sortable.requestSort
       (Sortable.requestSort
          {| Sortable.key := Some "statusRank";
             Sortable.direction := Sortable.ascending |} "cleanName")
       "cleanName") "imageName"
  = {| Sortable.key := Some "imageName"; Sortable.direction := Sortable.ascending |}.
Proof.
  apply (proj2 (proj2 (proj2 (proj2
           (requestSort_toggles
              {| Sortable.key := Some "statusRank";
                 Sortable.direction := Sortable.ascending |}
              "cleanName" "imageName"))) ltac:(discriminate))).
Defined.

(** ** [checkAndStartDocker] *)

Import DockerStartup.

#[local] Ltac startup_cases b :=
  destruct b as [[r1|[e1|]] [r2|[e2|]] [r3|[e3|]] w];
  unfold checkAndStartDocker, dockerState, errorMessage, awaited, ok_true, ok,
    resolved, string_form; cbn;
  repeat match goal with
    | |- context [succeeded_true ?r] => destruct (succeeded_true r); cbn
    | |- context [ApiResult.success ?r] => destruct (ApiResult.success r); cbn
    | |- context [w ?t] => destruct (w t) as [?r|[?e|]]; cbn
    end.

(** X13. Whatever state it is called in, [checkAndStartDocker] ends up
    [ready] exactly when Docker was found running, or when Colima is
    installed and both starting Docker and waiting for it succeeded;
    otherwise it ends in [not-installed] or [error], never in [checking]
    or [starting]. *)
Theorem docker_ready_iff (st : string * option string) (b : backend) :
  (dockerState st (checkAndStartDocker b) = "ready"
   ↔ ok_true (checkDockerRunning b) = true
     ∨ (resolved (checkDockerRunning b) = true
        ∧ ok_true (checkColimaInstalled b) = true
        ∧ ok (startDocker b) = true
        ∧ ok (waitForDocker b DOCKER_TIMEOUT_SECONDS) = true))
  ∧ dockerState st (checkAndStartDocker b) ∈ ["ready"; "not-installed"; "error"].
Proof.
  startup_cases b; (split; [split; [intros H; try discriminate H | intros H]|]);
    try (left; reflexivity);
    try (right; split_and!; reflexivity);
    try reflexivity;
    try (destruct H as [H|(H1 & H2 & H3 & H4)]; discriminate);
    try (apply (bool_decide_unpack _); exact I).
Qed.

(** Docker is down, Colima is installed and brings it up. *)
Lemma docker_ready_iff_witness :
  dockerState ("error", Some "previous failure") (checkAndStartDocker cold_start)
  = "ready".
Proof.
  apply (proj1 (docker_ready_iff ("error", Some "previous failure") cold_start)).
  right. split_and!; reflexivity.
Defined.

(** X14. Docker is started by the application only when the running check
    resolved negative and Colima is installed: a Docker that is already
    running is never started again, and the commands awaited are always an
    initial segment of the same four, in the same order. *)
Theorem docker_started_only_when_needed (b : backend) :
  ("startDocker" ∈ awaited (checkAndStartDocker b)
   ↔ resolved (checkDockerRunning b) = true
     ∧ ok_true (checkDockerRunning b) = false
     ∧ ok_true (checkColimaInstalled b) = true)
  ∧ awaited (checkAndStartDocker b)
    `prefix_of` ["checkDockerRunning"; "checkColimaInstalled";
                 "startDocker"; "waitForDocker"].
Proof.
  startup_cases b; (split; [split; [intros H | intros (H1 & H2 & H3)]|]);
    try discriminate;
    try (split_and!; reflexivity);
    try (apply (bool_decide_unpack _); exact I);
    try (exfalso; apply (bool_decide_pack _) in H; exact H);
    try (by eexists).
Qed.

(** With Docker down and Colima installed, Docker is started. *)
Lemma docker_started_only_when_needed_witness :
  "startDocker" ∈ awaited (checkAndStartDocker cold_start).
Proof.
  apply (proj1 (docker_started_only_when_needed cold_start)).
  split_and!; reflexivity.
Defined.

(** X15. After [checkAndStartDocker] an error message is set only when the
    state is [error], whatever the state and message were before: a retry
    that ends in [ready] or [not-installed] leaves no message of the failed
    attempt behind. Conversely the state [error] comes with a message,
    provided no command was rejected with a reason that has no string form
    (for such a reason [error.toString()] throws after the state was set,
    and the message stays unset). *)
Theorem docker_error_message_iff (st : string * option string) (b : backend) :
  (is_Some (errorMessage st (checkAndStartDocker b))
   → dockerState st (checkAndStartDocker b) = "error")
  ∧ (string_form (checkDockerRunning b) = true →
     string_form (checkColimaInstalled b) = true →
     string_form (startDocker b) = true →
     string_form (waitForDocker b DOCKER_TIMEOUT_SECONDS) = true →
     dockerState st (checkAndStartDocker b) = "error" →
     is_Some (errorMessage st (checkAndStartDocker b))).
Proof.
  startup_cases b; (split; [intros H | intros H1 H2 H3 H4 H]);
    try reflexivity; try discriminate;
    try (by eexists); try (by destruct H).
Qed.

(** Starting Docker fails without a message: the state is [error] and the
    fallback message is set. *)
Lemma docker_error_message_iff_witness :
  is_Some (errorMessage ("checking", None) (checkAndStartDocker failed_start)).
Proof.
  apply (proj2 (docker_error_message_iff ("checking", None) failed_start));
    reflexivity.
Defined.

(** ** [LogsView]: pooled log streaming *)

Lemma append_assoc (a b c : string) : (a +:+ b) +:+ c = a +:+ (b +:+ c).
Proof.
  induction a as [|x a IH]; [reflexivity|].
  change (String x ((a +:+ b) +:+ c) = String x (a +:+ (b +:+ c))).
  by rewrite IH.
Qed.

Lemma append_empty_r (a : string) : a +:+ "" = a.
Proof.
  induction a as [|x a IH]; [reflexivity|].
  change (String x (a +:+ "") = String x a). by rewrite IH.
Qed.

Lemma text_app (a b : list string) :
  LogPool.text (a ++ b) = LogPool.text a +:+ LogPool.text b.
Proof.
  induction a as [|x a IH]; [reflexivity|].
  change (x +:+ LogPool.text (a ++ b) = (x +:+ LogPool.text a) +:+ LogPool.text b).
  by rewrite IH, append_assoc.
Qed.

Lemma log_pool_run_cons (st : LogPool.pool) (ev : LogPool.event)
    (evs : list LogPool.event) :
  LogPool.run st (ev :: evs)
  = ((LogPool.run (LogPool.step st ev).1 evs).1,
     (LogPool.step st ev).2 ++ (LogPool.run (LogPool.step st ev).1 evs).2).
Proof.
  cbn [LogPool.run]. destruct (LogPool.step st ev) as [st1 w1]. cbn [fst snd].
  by destruct (LogPool.run st1 evs).
Qed.

(** X16. Pooling loses and reorders nothing: at any moment, what has been
    written to the terminal followed by what is still in the buffer is the
    concatenation of the buffer at the start and all chunks received, in
    order; a flush never writes an empty string; and while
    [xtermRef.current] is unset nothing is written at all. *)
Theorem log_pool_preserves_stream (st : LogPool.pool) (evs : list LogPool.event) :
  LogPool.text (LogPool.run st evs).2 +:+ LogPool.buffer (LogPool.run st evs).1
  = LogPool.buffer st +:+ LogPool.text (LogPool.chunks evs)
  ∧ Forall (λ w, w ≠ "") (LogPool.run st evs).2
  ∧ (LogPool.xterm st = false → (LogPool.run st evs).2 = []).
Proof.
  revert st. induction evs as [|ev evs IH]; intros st.
  { split_and!; [|constructor|done].
    change ("" +:+ LogPool.buffer st = LogPool.buffer st +:+ "").
    by rewrite append_empty_r. }
  rewrite log_pool_run_cons. cbn [fst snd].
  destruct (IH (LogPool.step st ev).1) as (IH1 & IH2 & IH3).
  destruct ev as [c|].
  - change (LogPool.step st (LogPool.Chunk c))
      with ({| LogPool.buffer := LogPool.buffer st +:+ c;
               LogPool.xterm := LogPool.xterm st |}, @nil string) in *.
    cbn [fst snd app LogPool.buffer LogPool.xterm] in *.
    change (LogPool.chunks (LogPool.Chunk c :: evs))
      with (c :: LogPool.chunks evs).
    change (LogPool.text (c :: LogPool.chunks evs))
      with (c +:+ LogPool.text (LogPool.chunks evs)).
    split_and!; [by rewrite IH1, append_assoc | exact IH2 | exact IH3].
  - change (LogPool.chunks (LogPool.Tick :: evs)) with (LogPool.chunks evs).
    revert IH1 IH2 IH3. unfold LogPool.step.
    destruct (LogPool.buffer st) as [|x buf] eqn:Hb;
      [|destruct (LogPool.xterm st) eqn:Hx];
      cbn [Js.truthy_string andb fst snd app LogPool.buffer LogPool.xterm];
      intros IH1 IH2 IH3.
    + rewrite Hb in IH1. split_and!; [exact IH1 | exact IH2 | exact IH3].
    + split_and!; [| constructor; [done | exact IH2] | done].
      change (LogPool.text (String x buf :: ?w))
        with (String x buf +:+ LogPool.text w).
      by rewrite append_assoc, IH1.
    + rewrite Hb in IH1.
      split_and!; [exact IH1 | exact IH2 | intros _; by apply IH3].
Qed.

(** Without a terminal, ticks write nothing and the chunks pile up. *)
Lemma log_pool_preserves_stream_witness :
  (LogPool.run {| LogPool.buffer := ""; LogPool.xterm := false |}
     [LogPool.Chunk "a"; LogPool.Tick; LogPool.Chunk "b"; LogPool.Tick]).2 = [].
Proof.
  apply (proj2 (proj2 (log_pool_preserves_stream
                         {| LogPool.buffer := ""; LogPool.xterm := false |}
                         [LogPool.Chunk "a"; LogPool.Tick;
                          LogPool.Chunk "b"; LogPool.Tick]))).
  reflexivity.
Defined.

(** ** [ImageList]: the progress lines *)

Lemma slice_last4_length {A : Type} (l : list A) :
  length (PullLog.slice_last4 l) = length l `min` 4.
Proof. unfold PullLog.slice_last4. rewrite length_drop. lia. Qed.

(** While only progress is reported, the lines are the last five records. *)
Lemma pullLogs_progress (ps : list string) :
  foldl PullLog.onProgress [] ps
  = PullLog.Progress <$> drop (length ps - 5) ps.
Proof.
  induction ps as [|p ps IH] using rev_ind; [reflexivity|].
  rewrite foldl_snoc, IH. unfold PullLog.onProgress, PullLog.slice_last4.
  rewrite length_fmap, length_drop, length_app. cbn [length].
  rewrite <- fmap_drop, drop_drop.
  replace (length ps - 5 + (length ps - (length ps - 5) - 4))
    with (length ps + 1 - 5) by lia.
  rewrite drop_app_le by lia.
  by rewrite fmap_app.
Qed.

(** X17. The pull dialog shows the last five progress records, oldest
    first: after any number of records, [pullLogs] holds exactly the last
    five reported (all of them when there are fewer). *)
Theorem pull_dialog_shows_last_five (ps : list string) :
  foldl PullLog.onProgress [] ps = PullLog.Progress <$> drop (length ps - 5) ps
  ∧ length (foldl PullLog.onProgress [] ps) = length ps `min` 5.
Proof.
  split; [apply pullLogs_progress|].
  rewrite pullLogs_progress, length_fmap, length_drop. lia.
Qed.

Lemma onProgress_length (prev : list PullLog.line) (p : string) :
  length (PullLog.onProgress prev p) = length prev `min` 4 + 1.
Proof.
  unfold PullLog.onProgress. by rewrite length_app, slice_last4_length.
Qed.

Lemma pullLogs_app (prev : list PullLog.line) (us us' : list PullLog.update) :
  PullLog.pullLogs prev (us ++ us')
  = PullLog.pullLogs (PullLog.pullLogs prev us) us'.
Proof. apply foldl_app. Qed.

(** Error lines are appended, in order, and nothing is dropped. *)
Lemma pullLogs_fails (prev : list PullLog.line) (errs : list string) :
  PullLog.pullLogs prev (PullLog.Fail <$> errs)
  = prev ++ ((λ err, PullLog.Status ("Error: " +:+ err)) <$> errs).
Proof.
  revert prev. induction errs as [|err errs IH]; intros prev.
  - cbn. by rewrite app_nil_r.
  - cbn [fmap list_fmap PullLog.pullLogs foldl PullLog.apply].
    change (foldl PullLog.apply ?l ?us) with (PullLog.pullLogs l us).
    rewrite IH. unfold PullLog.onError. by rewrite <- app_assoc.
Qed.

(** One session whose callbacks return makes at most one error line, and
    that after all its progress records. *)
Lemma pullLogs_session_bound (prev : list PullLog.line) (es : list effect) :
  (notifications es = [] →
   length (PullLog.pullLogs prev (PullLog.Reset :: PullLog.updates es)) ≤ 5)
  ∧ (length (notifications es) ≤ 1 →
     length (PullLog.pullLogs prev (PullLog.Reset :: PullLog.updates es)) ≤ 6).
Proof.
  induction es as [|e es [IH0 IH1]] using rev_ind; [cbn; lia|].
  unfold PullLog.updates. rewrite omap_app, app_comm_cons, pullLogs_app.
  fold (PullLog.updates es). rewrite notifications_app.
  revert IH0 IH1.
  generalize (PullLog.pullLogs prev (PullLog.Reset :: PullLog.updates es)).
  intros l IH0 IH1.
  destruct e; cbn [notifications List.filter terminal omap list_omap
                     PullLog.pullLogs foldl PullLog.apply];
    rewrite ?app_nil_r, ?length_app; cbn [length];
    try (split; [exact IH0 | exact IH1]).
  - split; intros _; rewrite onProgress_length; lia.
  - split; [intros H; by apply app_eq_nil in H as [_ ?]|].
    intros H. assert (notifications es = []) as Hn
      by (apply nil_length_inv; lia).
    specialize (IH0 Hn). lia.
  - split; [intros H; by apply app_eq_nil in H as [_ ?]|].
    intros H. assert (notifications es = []) as Hn
      by (apply nil_length_inv; lia).
    specialize (IH0 Hn). unfold PullLog.onError. rewrite length_app. cbn [length]. lia.
Qed.

(** The bound of six lines is one of a session left alone: with the error
    callback of a cancelled pull arriving after five records of the next
    one, which then fails as well, the dialog holds seven lines. *)
Lemma pull_dialog_seven_lines :
  length
    (PullLog.pullLogs []
       [PullLog.Reset; PullLog.Reset;
        PullLog.Report "a"; PullLog.Report "b"; PullLog.Report "c";
        PullLog.Report "d"; PullLog.Report "e";
        PullLog.Fail "cancelled"; PullLog.Fail "not found"])
  = 7.
Proof. reflexivity. Qed.

(** X18. The lines of the pull dialog, whichever sessions update them and
    whatever they held before. After a reset or a progress record there are
    at most five lines. Error lines that follow are appended one by one, in
    order, and stay until the next progress record or reset. When only the
    callbacks of one session run after the reset of its [handlePull], and
    they return, the dialog never holds more than six lines: at most five
    progress records and the one error line. *)
Theorem pull_dialog_line_bound (prev : list PullLog.line) :
  (∀ before u errs,
      PullLog.is_fail u = false →
      length (PullLog.pullLogs prev (before ++ [u])) ≤ 5
      ∧ PullLog.pullLogs prev (before ++ u :: (PullLog.Fail <$> errs))
        = PullLog.pullLogs prev (before ++ [u])
          ++ ((λ err, PullLog.Status ("Error: " +:+ err)) <$> errs))
  ∧ (∀ errs,
      PullLog.pullLogs prev (PullLog.Fail <$> errs)
      = prev ++ ((λ err, PullLog.Status ("Error: " +:+ err)) <$> errs))
  ∧ (∀ imageName onEnd onError sessionId ins,
      (∀ res, onEnd res = Returns) → (∀ err, onError err = Returns) →
      length
        (PullLog.pullLogs prev
           (PullLog.Reset
            :: PullLog.updates (pullImage imageName onEnd onError sessionId ins).2))
      ≤ 6).
Proof.
  split_and!.
  - intros before u errs Hu. split.
    + rewrite pullLogs_app. generalize (PullLog.pullLogs prev before). intros l.
      destruct u; [cbn; lia | | discriminate Hu].
      cbn [PullLog.pullLogs foldl PullLog.apply]. rewrite onProgress_length. lia.
    + change (u :: (PullLog.Fail <$> errs)) with ([u] ++ (PullLog.Fail <$> errs)).
      by rewrite app_assoc, pullLogs_app, pullLogs_fails.
  - apply pullLogs_fails.
  - intros imageName onEnd onError sessionId ins Hend Herr.
    apply pullLogs_session_bound.
    rewrite pullImage_unfold. cbn [snd].
    change (notifications (Listen ?n :: ?es)) with (notifications es).
    pose proof (pullImage_history imageName onEnd onError sessionId ins) as H.
    cbn zeta in H.
    destruct (setup _); [destruct H as [-> _]; cbn; lia
                        | destruct H as [-> _]; cbn; lia |].
    by apply H.
Qed.

(** A pull that reports seven records and then fails at the registry: the
    dialog ends with the last five records and the error line. *)
Lemma pull_dialog_line_bound_witness :
  length
    (PullLog.pullLogs [PullLog.Status "Error: left by an earlier pull"]
       (PullLog.Reset
        :: PullLog.updates
             (pullImage "nginx:nope" returning returning "k3x9ab"
                [ListenResolves; Emit "1"; Emit "2"; Emit "3"; Emit "4";
                 Emit "5"; Emit "6"; Emit "7";
                 InvokeResolves {| Session.success := false;
                                   Session.error := Some "not found" |}]).2))
  ≤ 6.
Proof.
  apply (proj2 (proj2 (pull_dialog_line_bound
                         [PullLog.Status "Error: left by an earlier pull"]))
           "nginx:nope" returning returning "k3x9ab");
    reflexivity.
Defined.

(** ** The terminal theme *)

(** X19. The theme [ExecView] and [LogsView] build in place is the one
    [getTerminalTheme] returns; an explicit [light] or [dark] setting
    ignores the system preference while [system] follows it; and the
    text colour always differs from the background. *)
Theorem terminal_theme_agrees (prefersDark : bool) (theme : TerminalTheme.setting) :
  TerminalTheme.inlineTheme prefersDark theme
  = TerminalTheme.getTerminalTheme prefersDark theme
  ∧ (theme ≠ TerminalTheme.system →
     TerminalTheme.getTerminalTheme prefersDark theme
     = TerminalTheme.getTerminalTheme (negb prefersDark) theme)
  ∧ TerminalTheme.isDarkTheme prefersDark TerminalTheme.system = prefersDark
  ∧ TerminalTheme.foreground (TerminalTheme.getTerminalTheme prefersDark theme)
    ≠ TerminalTheme.background (TerminalTheme.getTerminalTheme prefersDark theme).
Proof.
  split_and!; destruct theme, prefersDark; try reflexivity; try discriminate;
    intros H; by destruct H.
Qed.

(** An explicit dark setting on a system that prefers light. *)
Lemma terminal_theme_agrees_witness :
  TerminalTheme.getTerminalTheme false TerminalTheme.dark
  = TerminalTheme.getTerminalTheme (negb false) TerminalTheme.dark.
Proof.
  apply (proj1 (proj2 (terminal_theme_agrees false TerminalTheme.dark))).
  discriminate.
Defined.
